(** * The network request layer and the GraphQL layer of the plugin

    A shallow embedding of the request executor [_fetch] and its
    convenience wrappers ([utils/network.ts]), of [executeQuery],
    [executePersistedQuery], [query] and [persistedQuery]
    ([utils/graphql.ts]) and of [getBaseUrl] and [getPluginSetting]
    ([constants.ts]).

    JavaScript values are an inductive type, objects are association
    lists in insertion order, header objects are finite maps from
    strings to strings.  The host's capabilities ([http], [JSON.parse],
    the DOM parser, the [plugin] object) are the fields of a [Host]
    record.  Effects are explicit: a computation maps a state (the
    host's world and the trace of what was done so far) to the thrown
    exception or the returned value, together with the new state. *)

From Stdlib Require Import ZArith String Ascii List Lia.
From stdpp Require Import base gmap strings list pretty.
From Equations Require Import Equations.

Set Warnings "-register-all".
Open Scope Z_scope.

(** ** JavaScript values *)

(** [VHost] stands for an object of the host that the code only passes
    along (a parsed DOM document). The numbers are the integers and
    [NaN]: [VNum 0] is both zeros, numbers with a fraction and the
    infinities are left out. *)
Inductive value : Type :=
| VUndefined
| VNull
| VBool (b : bool)
| VNum (n : Z)
| VNaN
| VStr (s : string)
| VArr (xs : list value)
| VObj (fields : list (string * value))
| VHost (h : nat).

(** Modelled from the spec: the failure signalling primitive of the
    host, [ScriptException(type, msg)], a structured throw that carries
    a kind tag and a message; its class is declared by the host. Like
    the engine's own errors (TypeError, SyntaxError) it is an [Error]
    object: [instanceof Error] holds of every thrown value and
    [.message] is its message. *)
Inductive exn : Type :=
| ScriptException (type msg : string)
| NativeError (name msg : string).

Definition exn_message (e : exn) : string :=
  match e with
  | ScriptException _ m => m
  | NativeError _ m => m
  end.

Definition exn_kind (e : exn) : string :=
  match e with
  | ScriptException t _ => t
  | NativeError n _ => n
  end.

Module Js.

(** ToBoolean *)
Definition truthy (v : value) : bool :=
  match v with
  | VUndefined | VNull => false
  | VBool b => b
  | VNum n => negb (n =? 0)
  | VNaN => false
  | VStr s => negb (String.eqb s "")
  | VArr _ | VObj _ | VHost _ => true
  end.

Fixpoint assoc (k : string) (fields : list (string * value)) : option value :=
  match fields with
  | [] => None
  | (k', v) :: rest => if String.eqb k k' then Some v else assoc k rest
  end.

(** [v.k] for the keys the code reads ([errors], [data], [message]):
    reading a property of [null] or [undefined] throws a TypeError
    (with the wording of V8), an object gives the field or
    [undefined], anything else has no such property. *)
Definition get_prop (v : value) (k : string) : exn + value :=
  match v with
  | VUndefined =>
      inl (NativeError "TypeError"
             ("Cannot read properties of undefined (reading '" +:+ k +:+ "')"))
  | VNull =>
      inl (NativeError "TypeError"
             ("Cannot read properties of null (reading '" +:+ k +:+ "')"))
  | VObj fields => inr (default VUndefined (assoc k fields))
  | _ => inr VUndefined
  end.

Fixpoint join (sep : string) (parts : list string) : string :=
  match parts with
  | [] => ""
  | [p] => p
  | p :: rest => p +:+ sep +:+ join sep rest
  end.

(** String(v), and the element conversion of Array.prototype.join
    ([null] and [undefined] elements give the empty string). *)
Fixpoint to_string (v : value) : string :=
  match v with
  | VUndefined => "undefined"
  | VNull => "null"
  | VBool b => if b then "true" else "false"
  | VNum n => pretty n
  | VNaN => "NaN"
  | VStr s => s
  | VArr xs =>
      join "," (map (fun x => match x with
                              | VUndefined | VNull => ""
                              | _ => to_string x
                              end) xs)
  | VObj _ | VHost _ => "[object Object]"
  end.

Definition join_values (sep : string) (xs : list value) : string :=
  join sep (map (fun x => match x with
                          | VUndefined | VNull => ""
                          | _ => to_string x
                          end) xs).

Definition upper_ascii (c : ascii) : ascii :=
  let n := nat_of_ascii c in
  if ((97 <=? n) && (n <=? 122))%nat then ascii_of_nat (n - 32) else c.

(** [s.toUpperCase()] on the letters a to z: the method names of HTTP
    are made of these. Other characters are left as they are. *)
Fixpoint toUpperCase (s : string) : string :=
  match s with
  | EmptyString => EmptyString
  | String c r => String (upper_ascii c) (toUpperCase r)
  end.

Definition startsWith (s pre : string) : bool := String.prefix pre s.

(** [hay.includes(needle)] *)
Fixpoint includes (hay needle : string) : bool :=
  if String.prefix needle hay then true
  else match hay with
       | EmptyString => false
       | String _ r => includes r needle
       end.

End Js.

(** ** JSON.stringify *)

Module Json.

Definition dq : string := String (ascii_of_nat 34) EmptyString.

Definition hex_digit (n : nat) : ascii :=
  if (n <? 10)%nat then ascii_of_nat (48 + n) else ascii_of_nat (87 + n).

Definition escape_char (c : ascii) : string :=
  let n := nat_of_ascii c in
  if (n =? 34)%nat then "\" +:+ dq
  else if (n =? 92)%nat then "\\"
  else if (n =? 8)%nat then "\b"
  else if (n =? 12)%nat then "\f"
  else if (n =? 10)%nat then "\n"
  else if (n =? 13)%nat then "\r"
  else if (n =? 9)%nat then "\t"
  else if (n <? 32)%nat then
    "\u00" +:+ String (hex_digit (n / 16)) (String (hex_digit (n mod 16)) EmptyString)
  else String c EmptyString.

Fixpoint escape (s : string) : string :=
  match s with
  | EmptyString => EmptyString
  | String c r => escape_char c +:+ escape r
  end.

Definition quote (s : string) : string := dq +:+ escape s +:+ dq.

(** [None] is the result [undefined]. In an array an [undefined]
    element is written [null]; in an object a field whose value is
    [undefined] is left out. [NaN] is written [null]. An integer is
    written with all its digits, as the engine writes the integers up
    to 2^53 in absolute value. *)
Fixpoint stringify (v : value) : option string :=
  match v with
  | VUndefined => None
  | VNull => Some "null"
  | VBool b => Some (if b then "true" else "false")
  | VNum n => Some (pretty n)
  | VNaN => Some "null"
  | VStr s => Some (quote s)
  | VArr xs =>
      Some ("[" +:+ Js.join "," (map (fun x => default "null" (stringify x)) xs) +:+ "]")
  | VObj fields =>
      let member :=
        fix member (fs : list (string * value)) : list string :=
          match fs with
          | [] => []
          | (k, x) :: rest =>
              match stringify x with
              | Some s => (quote k +:+ ":" +:+ s) :: member rest
              | None => member rest
              end
          end in
      Some ("{" +:+ Js.join "," (member fields) +:+ "}")
  | VHost _ => Some "{}"
  end.

(** The string a template or a string parameter gets from a
    stringify result. *)
Definition stringify_str (v : value) : string :=
  default "undefined" (stringify v).

End Json.

(** ** The host *)

Abbreviation Headers := (gmap string string).

(** Modelled from the spec: the outcome of the host's transport, which
    exposes a success flag, a numeric status code and a raw body. *)
Record Response : Type := mkResponse {
  isOk : bool;
  code : Z;
  body : string
}.

Definition response_value (r : Response) : value :=
  VObj [("isOk", VBool (isOk r)); ("code", VNum (code r)); ("body", VStr (body r))].

(** The three entry points of the transport. *)
Inductive http_call : Type :=
| HttpGET (url : string) (headers : Headers) (useAuth : bool)
| HttpPOST (url body : string) (headers : Headers) (useAuth : bool)
| HttpRequest (method url body : string) (headers : Headers) (useAuth : bool).

Definition call_url (c : http_call) : string :=
  match c with
  | HttpGET u _ _ | HttpPOST u _ _ _ | HttpRequest _ u _ _ _ => u
  end.

Definition call_headers (c : http_call) : Headers :=
  match c with
  | HttpGET _ h _ | HttpPOST _ _ h _ | HttpRequest _ _ _ h _ => h
  end.

(** [None] for GET, which sends no body. *)
Definition call_body (c : http_call) : option string :=
  match c with
  | HttpGET _ _ _ => None
  | HttpPOST _ b _ _ | HttpRequest _ _ b _ _ => Some b
  end.

(** What a run leaves behind, oldest first. [EvWait ms] is one busy
    wait of [ms] milliseconds between two attempts. *)
Inductive event : Type :=
| EvHttp (c : http_call)
| EvWait (ms : Z)
| EvDomParse (text mime : string)
| EvLog (msg : string).

Record PluginSetting : Type := mkSetting {
  variable : option string;
  setting_options : option (list string);
  setting_default : option string
}.

Record Constants : Type := mkConstants {
  defaultHeaders : option Headers
}.

Record PluginConfig : Type := mkConfig {
  config_settings : option (list PluginSetting);
  config_constants : option Constants
}.

Record Plugin : Type := mkPlugin {
  plugin_config : option PluginConfig;
  plugin_settings : gmap string string
}.

(** Modelled from the spec: the globals the host injects ([http],
    [domParser], [plugin]) and the engine's [JSON.parse]. The transport
    may answer differently at every call: it steps a world of the
    host's. [JSON.parse] and the DOM parser are functions of the text,
    which return or throw. *)
Record Host (W : Type) : Type := mkHost {
  http : http_call -> W -> (exn + Response) * W;
  JSON_parse : string -> exn + value;
  domParser_parseFromString : string -> string -> exn + value;
  plugin : Plugin
}.
Arguments http {W}.
Arguments JSON_parse {W}.
Arguments domParser_parseFromString {W}.
Arguments plugin {W}.

Record St (W : Type) : Type := mkSt {
  world : W;
  trace : list event
}.
Arguments mkSt {W}.
Arguments world {W}.
Arguments trace {W}.

(** ** Computations that may throw *)

Definition M (W A : Type) : Type := St W -> (exn + A) * St W.

Definition ret {W A} (a : A) : M W A := fun s => (inr a, s).

Definition throw {W A} (e : exn) : M W A := fun s => (inl e, s).

Definition bind {W A B} (m : M W A) (f : A -> M W B) : M W B :=
  fun s => match m s with
           | (inr a, s') => f a s'
           | (inl e, s') => (inl e, s')
           end.

(** try { m } catch (e) { h e } *)
Definition try_catch {W A} (m : M W A) (h : exn -> M W A) : M W A :=
  fun s => match m s with
           | (inr a, s') => (inr a, s')
           | (inl e, s') => h e s'
           end.

Definition lift {W A} (r : exn + A) : M W A := fun s => (r, s).

Definition emit {W} (e : event) : M W unit :=
  fun s => (inr tt, mkSt (world s) (trace s ++ [e])).

Declare Scope js_scope.
Delimit Scope js_scope with js.
Notation "x <- m ;; k" := (bind m (fun x => k))
  (at level 100, m at next level, right associativity) : js_scope.
Notation "m ;;; k" := (bind m (fun _ => k))
  (at level 100, right associativity) : js_scope.
Open Scope js_scope.

(** The projections of a trace the properties talk about. *)
Definition http_calls (t : list event) : list http_call :=
  omap (fun e => match e with EvHttp c => Some c | _ => None end) t.

Definition waits (t : list event) : list Z :=
  omap (fun e => match e with EvWait ms => Some ms | _ => None end) t.

Definition dom_parses (t : list event) : list string :=
  omap (fun e => match e with EvDomParse text _ => Some text | _ => None end) t.

Definition count_http (t : list event) : nat := length (http_calls t).

(** ** The request executor ([network.ts]) *)

Record FetchOptions : Type := mkFetchOptions {
  fo_method : option string;
  fo_headers : option Headers;
  fo_data : value;              (* [VUndefined] when absent *)
  fo_useAuth : option bool;
  fo_retries : option Z;
  fo_retryDelay : option Z;
  fo_parseJson : option bool;
  fo_parseHtml : option bool;
  fo_throwOnError : option bool
}.

(** [{}] *)
Definition no_options : FetchOptions :=
  mkFetchOptions None None VUndefined None None None None None None.

(** The options of [_fetch] after the destructuring with defaults. *)
Record Request : Type := mkRequest {
  method : string;
  customHeaders : Headers;
  data : value;
  useAuth : bool;
  retries : Z;
  retryDelay : Z;
  parseJson : bool;
  parseHtml : bool;
  throwOnError : bool
}.

Definition destructure (options : FetchOptions) : Request :=
  {| method := default "GET" (fo_method options);
     customHeaders := default ∅ (fo_headers options);
     data := match fo_data options with VUndefined => VNull | d => d end;
     useAuth := default false (fo_useAuth options);
     retries := default 3 (fo_retries options);
     retryDelay := default 1000 (fo_retryDelay options);
     parseJson := default false (fo_parseJson options);
     parseHtml := default false (fo_parseHtml options);
     throwOnError := default true (fo_throwOnError options) |}.

(** [{ ...a, ...b }] on header objects: the keys of [b] win. *)
Definition spread (a b : Headers) : Headers := b ∪ a.

(** [data ? (typeof data === 'string' ? data : JSON.stringify(data)) : ''] *)
Definition serialize_body (data : value) : string :=
  if Js.truthy data then
    match data with
    | VStr s => s
    | _ => Json.stringify_str data
    end
  else "".

(** How the loop of [_fetch] ends: a [return] inside the [try], or no
    attempt left, with the last error caught. *)
Inductive loop_result : Type :=
| Returned (v : value)
| Exhausted (lastError : option exn).

Section Network.
Context {W : Type} (host : Host W).

Definition http_do (c : http_call) : M W Response :=
  fun s =>
    let '(r, w') := http host c (world s) in
    (r, mkSt w' (trace s ++ [EvHttp c])).

Definition domParser_parse (text mime : string) : M W value :=
  emit (EvDomParse text mime) ;;;
  lift (domParser_parseFromString host text mime).

(** [plugin.config?.constants?.defaultHeaders || {}] *)
Definition plugin_defaultHeaders : Headers :=
  match plugin_config (plugin host) with
  | Some cfg =>
      match config_constants cfg with
      | Some c => default ∅ (defaultHeaders c)
      | None => ∅
      end
  | None => ∅
  end.

Definition effective_headers (r : Request) : Headers :=
  spread plugin_defaultHeaders (customHeaders r).

(** The transport call of one attempt. *)
Definition dispatch (url : string) (r : Request) : http_call :=
  let upperMethod := Js.toUpperCase (method r) in
  let body := serialize_body (data r) in
  if String.eqb upperMethod "GET" then
    HttpGET url (effective_headers r) (useAuth r)
  else if String.eqb upperMethod "POST" then
    HttpPOST url body (effective_headers r) (useAuth r)
  else
    HttpRequest upperMethod url body (effective_headers r) (useAuth r).

(** What the body of the [try] does with the transport's response. *)
Definition handle_response (url : string) (r : Request) (response : Response)
  : M W value :=
  if negb (isOk response) then
    let error :=
      ScriptException "NetworkError"
        ("Request to " +:+ url +:+ " failed with status " +:+ pretty (code response)) in
    if throwOnError r then throw error else ret VNull
  else if parseJson r then
    jsonData <- lift (JSON_parse host (body response)) ;;
    errors <- lift (Js.get_prop jsonData "errors") ;;
    if Js.truthy errors then
      throw (ScriptException "APIError" (Json.stringify_str errors))
    else ret jsonData
  else if parseHtml r then
    domParser_parse (body response) "text/html"
  else ret (response_value response).

(** The body of the [try]: every normal end of it is a [return] of
    [_fetch], every other end goes to the [catch]. *)
Definition attempt (url : string) (r : Request) : M W value :=
  response <- http_do (dispatch url r) ;;
  handle_response url r response.

(** The wait of the [catch], after [attempts--]. *)
Definition retry_wait (r : Request) (attempts : Z) (s : St W) : St W :=
  if (0 <? attempts) && (0 <? retryDelay r)
  then mkSt (world s) (trace s ++ [EvWait (retryDelay r)])
  else s.

(** [while (attempts > 0) { try { ... } catch (error) { ... } }] *)
Equations? fetch_loop (url : string) (r : Request)
    (attempts : Z) (lastError : option exn) (s : St W)
  : loop_result * St W by wf (Z.to_nat attempts) lt :=
  fetch_loop url r attempts lastError s with Z_lt_dec 0 attempts := {
    | right _ := (Exhausted lastError, s)
    | left _ with attempt url r s := {
        | (inr v, s1) := (Returned v, s1)
        | (inl error, s1) :=
            fetch_loop url r (attempts - 1) (Some error)
              (retry_wait r (attempts - 1) s1) } }.
Proof. lia. Qed.

(** [lastError?.message || 'Unknown error'] *)
Definition last_message (lastError : option exn) : string :=
  match lastError with
  | Some e => if String.eqb (exn_message e) "" then "Unknown error" else exn_message e
  | None => "Unknown error"
  end.

Definition exhausted_error (url : string) (r : Request) (lastError : option exn) : exn :=
  ScriptException "NetworkError"
    ("Request to " +:+ url +:+ " failed after " +:+ pretty (retries r + 1)
     +:+ " attempts: " +:+ last_message lastError).

Definition fetch_request (url : string) (r : Request) : M W value :=
  fun s =>
    match fetch_loop url r (retries r + 1) None s with
    | (Returned v, s') => (inr v, s')
    | (Exhausted lastError, s') =>
        if throwOnError r then (inl (exhausted_error url r lastError), s')
        else (inr VNull, s')
    end.

Definition _fetch (url : string) (options : FetchOptions) : M W value :=
  fetch_request url (destructure options).

End Network.

(** ** The convenience API ([network.ts]) *)

(** [{ ...options, key: v }] for each key the wrappers set. *)
Definition with_method (m : string) (o : FetchOptions) : FetchOptions :=
  mkFetchOptions (Some m) (fo_headers o) (fo_data o) (fo_useAuth o) (fo_retries o)
    (fo_retryDelay o) (fo_parseJson o) (fo_parseHtml o) (fo_throwOnError o).

Definition with_headers (h : Headers) (o : FetchOptions) : FetchOptions :=
  mkFetchOptions (fo_method o) (Some h) (fo_data o) (fo_useAuth o) (fo_retries o)
    (fo_retryDelay o) (fo_parseJson o) (fo_parseHtml o) (fo_throwOnError o).

Definition with_data (d : value) (o : FetchOptions) : FetchOptions :=
  mkFetchOptions (fo_method o) (fo_headers o) d (fo_useAuth o) (fo_retries o)
    (fo_retryDelay o) (fo_parseJson o) (fo_parseHtml o) (fo_throwOnError o).

Definition with_parseJson (b : bool) (o : FetchOptions) : FetchOptions :=
  mkFetchOptions (fo_method o) (fo_headers o) (fo_data o) (fo_useAuth o) (fo_retries o)
    (fo_retryDelay o) (Some b) (fo_parseHtml o) (fo_throwOnError o).

Definition with_parseHtml (b : bool) (o : FetchOptions) : FetchOptions :=
  mkFetchOptions (fo_method o) (fo_headers o) (fo_data o) (fo_useAuth o) (fo_retries o)
    (fo_retryDelay o) (fo_parseJson o) (Some b) (fo_throwOnError o).

Section Convenience.
Context {W : Type} (host : Host W).

Definition get (url : string) (options : FetchOptions) : M W value :=
  _fetch host url (with_method "GET" options).

Definition post (url : string) (d : value) (options : FetchOptions) : M W value :=
  _fetch host url (with_data d (with_method "POST" options)).

Definition put (url : string) (d : value) (options : FetchOptions) : M W value :=
  _fetch host url (with_data d (with_method "PUT" options)).

Definition del (url : string) (options : FetchOptions) : M W value :=
  _fetch host url (with_method "DELETE" options).

Definition fetchJson (url : string) (options : FetchOptions) : M W value :=
  let headers :=
    spread {[ "Accept" := "application/json" ]} (default ∅ (fo_headers options)) in
  _fetch host url (with_parseJson true (with_headers headers options)).

Definition getJson (url : string) (options : FetchOptions) : M W value :=
  fetchJson url (with_method "GET" options).

Definition postJson (url : string) (d : value) (options : FetchOptions) : M W value :=
  let headers :=
    spread {[ "Content-Type" := "application/json" ]} (default ∅ (fo_headers options)) in
  fetchJson url (with_data d (with_method "POST" (with_headers headers options))).

Definition fetchHtml (url : string) (options : FetchOptions) : M W value :=
  _fetch host url (with_parseHtml true options).

Definition getHtml (url : string) (options : FetchOptions) : M W value :=
  _fetch host url (with_parseHtml true (with_method "GET" options)).

Definition fetchGraphQL (endpoint query : string)
    (variables : list (string * value)) (options : FetchOptions) : M W value :=
  let payload := VObj [("query", VStr query); ("variables", VObj variables)] in
  let headers :=
    spread {[ "Content-Type" := "application/json" ]} (default ∅ (fo_headers options)) in
  response <- _fetch host endpoint
                (with_parseJson true
                   (with_data payload (with_headers headers (with_method "POST" options)))) ;;
  if Js.truthy response then
    d <- lift (Js.get_prop response "data") ;;
    if Js.truthy d then ret d else ret response
  else ret response.

End Convenience.

(** ** The base URL ([constants.ts]) *)

(** [a || b] where [a] is a string or [undefined]. *)
Definition or_string (a : option string) (b : string) : string :=
  match a with
  | Some s => if String.eqb s "" then b else s
  | None => b
  end.

Section Constants.
Context {W : Type} (host : Host W).

Definition log (msg : string) : M W unit := emit (EvLog msg).

(** [settings?.find(s => s.variable === name)] *)
Definition find_setting (cfg : option PluginConfig) (name : string)
  : option PluginSetting :=
  cfg' ← cfg;
  settings ← config_settings cfg';
  List.find (fun s => match variable s with
                      | Some v => String.eqb v name
                      | None => false
                      end) settings.

Definition getPluginSetting (name : string) (defaultValue : option string) : string :=
  match plugin_settings (plugin host) !! name with
  | Some v => v
  | None =>
      let setting := find_setting (plugin_config (plugin host)) name in
      or_string (setting ≫= setting_default) (or_string defaultValue "")
  end.

Definition getBaseUrl : M W string :=
  match plugin_config (plugin host) with
  | None =>
      log "Warning: getBaseUrl() called before plugin.enable()" ;;; ret ""
  | Some cfg =>
      let baseUrlSetting := find_setting (Some cfg) "baseUrl" in
      let availableUrls := default [] (baseUrlSetting ≫= setting_options) in
      match availableUrls with
      | [] => log "Warning: No base URLs configured in settings" ;;; ret ""
      | first :: _ =>
          let selectedUrl := getPluginSetting "baseUrl" (Some first) in
          ret (or_string (Some selectedUrl) first)
      end
  end.

End Constants.

(** ** URLSearchParams *)

Module Url.

Definition hex_upper (n : nat) : ascii :=
  if (n <? 10)%nat then ascii_of_nat (48 + n) else ascii_of_nat (55 + n).

(** The application/x-www-form-urlencoded byte serializer: letters,
    digits and [*-._] stay, a space becomes [+], every other byte is
    percent-encoded. *)
Definition encode_char (c : ascii) : string :=
  let n := nat_of_ascii c in
  if ((48 <=? n) && (n <=? 57) || (65 <=? n) && (n <=? 90) || (97 <=? n) && (n <=? 122)
      || (n =? 42) || (n =? 45) || (n =? 46) || (n =? 95))%nat
  then String c EmptyString
  else if (n =? 32)%nat then "+"
  else String "%" (String (hex_upper (n / 16)) (String (hex_upper (n mod 16)) EmptyString)).

Fixpoint encode (s : string) : string :=
  match s with
  | EmptyString => EmptyString
  | String c r => encode_char c +:+ encode r
  end.

(** [params.set(k, v)] *)
Fixpoint set (k v : string) (params : list (string * string)) : list (string * string) :=
  match params with
  | [] => [(k, v)]
  | (k', v') :: rest =>
      if String.eqb k k' then (k, v) :: List.filter (fun p => negb (String.eqb k (fst p))) rest
      else (k', v') :: set k v rest
  end.

(** [params.toString()] *)
Definition to_string (params : list (string * string)) : string :=
  Js.join "&" (map (fun p => encode (fst p) +:+ "=" +:+ encode (snd p)) params).

End Url.

(** ** The GraphQL layer ([graphql.ts]) *)

Record GraphQLOptions : Type := mkGraphQLOptions {
  go_query : option string;
  go_variables : option (list (string * value));
  go_headers : option Headers;
  go_useAuth : option bool;
  go_endpoint : option string;
  go_retries : option Z
}.

Record PersistedQueryOptions : Type := mkPersistedQueryOptions {
  pq_operationName : option string;
  pq_sha256Hash : option string;
  pq_version : option Z;
  pq_variables : option (list (string * value));
  pq_headers : option Headers;
  pq_useAuth : option bool;
  pq_retries : option Z
}.

Record GraphQLError : Type := mkGraphQLError {
  gql_code : string;
  gql_message : string;
  gql_errors : option value;
  gql_operationName : option string
}.

(** [[error, data]]: [None] is a [null] error. *)
Definition GraphQLResponse : Type := option GraphQLError * value.

(** [!s] for an optional string. *)
Definition missing (s : option string) : bool :=
  match s with
  | Some s' => String.eqb s' ""
  | None => true
  end.

(** [xs.map((e) => e.message)] *)
Fixpoint map_message (xs : list value) : exn + list value :=
  match xs with
  | [] => inr []
  | e :: rest =>
      match Js.get_prop e "message" with
      | inl err => inl err
      | inr m =>
          match map_message rest with
          | inl err => inl err
          | inr ms => inr (m :: ms)
          end
      end
  end.

(** [errors.map((e) => e.message).join(', ')]; only an array has [map]. *)
Definition errors_message (errors : value) : exn + string :=
  match errors with
  | VArr es =>
      match map_message es with
      | inl err => inl err
      | inr ms => inr (Js.join_values ", " ms)
      end
  | _ => inl (NativeError "TypeError" "response.errors.map is not a function")
  end.

(** The query parameters of a persisted query: [operationName], the
    variables when there are some, and [extensions]. *)
Definition persisted_params (options : PersistedQueryOptions) : list (string * string) :=
  let operationName := default "" (pq_operationName options) in
  let sha256Hash := default "" (pq_sha256Hash options) in
  let version := default 1 (pq_version options) in
  let variables := default [] (pq_variables options) in
  let params := Url.set "operationName" operationName [] in
  let params :=
    match variables with
    | [] => params
    | _ => Url.set "variables" (Json.stringify_str (VObj variables)) params
    end in
  Url.set "extensions"
    (Json.stringify_str
       (VObj [("persistedQuery",
               VObj [("version", VNum version); ("sha256Hash", VStr sha256Hash)])]))
    params.

(** [`${baseUrl}?${params.toString()}`] *)
Definition persisted_url (baseUrl : string) (options : PersistedQueryOptions) : string :=
  baseUrl +:+ "?" +:+ Url.to_string (persisted_params options).

(** [{ headers, useAuth, retries, throwOnError: false }] *)
Definition persisted_request (options : PersistedQueryOptions) : FetchOptions :=
  mkFetchOptions None (Some (default ∅ (pq_headers options))) VUndefined
    (Some (default false (pq_useAuth options)))
    (Some (default 3 (pq_retries options))) None None None (Some false).

Section GraphQL.
Context {W : Type} (host : Host W).

(** The [try] block of [executeQuery]. *)
Definition executeQuery_try (options : GraphQLOptions) : M W GraphQLResponse :=
  let query := default "" (go_query options) in
  let variables := default [] (go_variables options) in
  let headers := default ∅ (go_headers options) in
  let useAuth := default false (go_useAuth options) in
  let endpoint := default "/graphql" (go_endpoint options) in
  let retries := default 3 (go_retries options) in
  baseUrl <- getBaseUrl host ;;
  let url := if Js.startsWith endpoint "http" then endpoint else baseUrl +:+ endpoint in
  response <- fetchGraphQL host url query variables
                (mkFetchOptions None (Some headers) VUndefined (Some useAuth)
                   (Some retries) None None None None) ;;
  ret (None, response).

(** Its [catch] block: [err.errors] of an exception is [undefined]. *)
Definition executeQuery_catch (error : exn) : M W GraphQLResponse :=
  if negb (String.eqb (exn_message error) "")
     && Js.includes (exn_message error) "GraphQL errors"
  then ret (Some (mkGraphQLError "GQL_ERROR" (exn_message error) None None), VNull)
  else ret (Some (mkGraphQLError "EXCEPTION" (exn_message error) None None), VNull).

Definition executeQuery (options : GraphQLOptions) : M W GraphQLResponse :=
  if missing (go_query options) then
    ret (Some (mkGraphQLError "INVALID_QUERY" "Query string is required" None None), VNull)
  else try_catch (executeQuery_try options) executeQuery_catch.

(** The [try] block of [executePersistedQuery]. *)
Definition executePersistedQuery_try (options : PersistedQueryOptions)
  : M W GraphQLResponse :=
  let operationName := default "" (pq_operationName options) in
  baseUrl <- getBaseUrl host ;;
  let url := persisted_url baseUrl options in
  response <- getJson host url (persisted_request options) ;;
  errors <- (if Js.truthy response then lift (Js.get_prop response "errors")
             else ret response) ;;
  if Js.truthy errors then
    message <- lift (errors_message errors) ;;
    d <- lift (Js.get_prop response "data") ;;
    ret (Some (mkGraphQLError "GQL_ERROR" message (Some errors) (Some operationName)),
         if Js.truthy d then d else VNull)
  else
    d <- lift (Js.get_prop response "data") ;;
    ret (None, d).

Definition executePersistedQuery_catch (options : PersistedQueryOptions) (error : exn)
  : M W GraphQLResponse :=
  ret (Some (mkGraphQLError "EXCEPTION" (exn_message error) None
               (Some (default "" (pq_operationName options)))), VNull).

Definition executePersistedQuery (options : PersistedQueryOptions)
  : M W GraphQLResponse :=
  if missing (pq_operationName options) || missing (pq_sha256Hash options) then
    ret (Some (mkGraphQLError "INVALID_PERSISTED_QUERY"
                 "operationName and sha256Hash are required" None None), VNull)
  else
    try_catch (executePersistedQuery_try options) (executePersistedQuery_catch options).

Definition query (queryString : string) (variables : option (list (string * value)))
  : M W value :=
  r <- executeQuery (mkGraphQLOptions (Some queryString) variables None None None None) ;;
  match fst r with
  | Some error => throw (ScriptException "GraphQLError" (gql_message error))
  | None => ret (snd r)
  end.

Definition persistedQuery (operationName sha256Hash : string)
    (variables : option (list (string * value))) : M W value :=
  r <- executePersistedQuery
         (mkPersistedQueryOptions (Some operationName) (Some sha256Hash) None variables
            None None None) ;;
  match fst r with
  | Some error => throw (ScriptException "GraphQLError" (gql_message error))
  | None => ret (snd r)
  end.

End GraphQL.

(** ** The general request and the default headers *)

(** The first argument of [fetch]: a URL, or an options object that
    carries the URL. *)
Inductive fetch_target : Type :=
| TargetUrl (url : string)
| TargetOptions (url : string) (opts : FetchOptions).

Section Fetch.
Context {W : Type} (host : Host W).

Definition fetch (urlOrOptions : fetch_target) (options : option FetchOptions)
  : M W value :=
  match urlOrOptions with
  | TargetUrl url => _fetch host url (default no_options options)
  | TargetOptions url opts => _fetch host url opts
  end.

(** [constants.ts] *)
Definition getDefaultHeaders : Headers :=
  match plugin_config (plugin host) with
  | None => ∅
  | Some cfg => default ∅ (config_constants cfg ≫= defaultHeaders)
  end.

End Fetch.

(** ** The API client ([api/client.ts]) *)

Module Str.

(** [s.endsWith(suffix)] *)
Fixpoint endsWith (s suffix : string) : bool :=
  if String.eqb s suffix then true
  else match s with
       | EmptyString => false
       | String _ rest => endsWith rest suffix
       end.

(** [s.slice(0, -1)] *)
Fixpoint slice_init (s : string) : string :=
  match s with
  | EmptyString => EmptyString
  | String c rest =>
      match rest with
      | EmptyString => EmptyString
      | String _ _ => String c (slice_init rest)
      end
  end.

(** [s.split(sep)] for a separator of one character. *)
Fixpoint split (sep : ascii) (s : string) : list string :=
  match s with
  | EmptyString => [EmptyString]
  | String c rest =>
      if Ascii.eqb c sep then EmptyString :: split sep rest
      else match split sep rest with
           | piece :: pieces => String c piece :: pieces
           | [] => [String c EmptyString]
           end
  end.

End Str.

Module APIClient.
Section Client.
Context {W : Type} (host : Host W).

Definition getUrl (endpoint : string) : M W string :=
  baseUrl <- getBaseUrl host ;;
  if String.eqb baseUrl "" then
    throw (ScriptException "ConfigError"
             "Base URL not configured. Check settings[baseUrl].options in config.json")
  else
    let base := if Str.endsWith baseUrl "/" then Str.slice_init baseUrl else baseUrl in
    let path := if Js.startsWith endpoint "/" then endpoint else "/" +:+ endpoint in
    ret (base +:+ path).

Definition get (endpoint : string) (options : option FetchOptions) : M W value :=
  url <- getUrl endpoint ;; get host url (default no_options options).

Definition post (endpoint : string) (d : value) (options : option FetchOptions)
  : M W value :=
  url <- getUrl endpoint ;; post host url d (default no_options options).

Definition put (endpoint : string) (d : value) (options : option FetchOptions)
  : M W value :=
  url <- getUrl endpoint ;; put host url d (default no_options options).

(** The module [network.ts] exports the DELETE wrapper as [del]; it
    has no export named [delete]. The argument is evaluated first, then
    calling what is not a function throws. *)
Definition delete (endpoint : string) (options : option FetchOptions) : M W value :=
  url <- getUrl endpoint ;;
  throw (NativeError "TypeError" "network.delete is not a function").

Definition getJson (endpoint : string) (options : option FetchOptions) : M W value :=
  url <- getUrl endpoint ;; getJson host url (default no_options options).

Definition postJson (endpoint : string) (d : value) (options : option FetchOptions)
  : M W value :=
  url <- getUrl endpoint ;; postJson host url d (default no_options options).

Definition getHtml (endpoint : string) (options : option FetchOptions) : M W value :=
  url <- getUrl endpoint ;; getHtml host url (default no_options options).

(** [endpoint] is the [endpoint] the options object may carry beside
    the fetch options. *)
Definition graphql (query : string) (variables : option (list (string * value)))
    (endpoint : option string) (options : option FetchOptions) : M W value :=
  url <- getUrl (or_string endpoint "/graphql") ;;
  fetchGraphQL host url query (default [] variables) (default no_options options).

Definition request (endpoint : string) (options : FetchOptions) : M W value :=
  url <- getUrl endpoint ;; fetch host (TargetUrl url) (Some options).

End Client.
End APIClient.

(** ** The authentication state ([state/index.ts]) *)

(** The fields of [plugin.state] this module keeps. The token and the
    user id are whatever the token endpoint sent; the expiration is a
    number of milliseconds. *)
Record AuthState : Type := mkAuthState {
  authToken : value;
  authTokenExpiration : Z;
  userId : value
}.

(** [a || b] *)
Definition js_or (a b : value) : value := if Js.truthy a then a else b.

(** [String(e)] of an [Error] object: its name, a colon and its
    message. The host's class does not set a name of its own. *)
Definition error_to_string (e : exn) : string :=
  match e with
  | ScriptException _ m => "Error: " +:+ m
  | NativeError n m => n +:+ ": " +:+ m
  end.

Module Auth.
Section State.
Context {W : Type} (host : Host W).

(** [now] is what [Date.now()] answers in this call. *)
Definition isTokenValid (now : Z) (a : AuthState) : value :=
  if Js.truthy (authToken a) then VBool (now <? authTokenExpiration a)
  else authToken a.

(** The [try] block of [refreshAuthToken]: how it ends, and the
    authentication state and the host state it leaves. *)
Definition refresh_try (now : Z) (a : AuthState) (s : St W)
  : (exn + unit) * AuthState * St W :=
  match getBaseUrl host s with
  | (inl e, s1) => (inl e, a, s1)
  | (inr baseUrl, s1) =>
      match http_do host
              (HttpPOST (baseUrl +:+ "/auth/token") (Json.stringify_str (VObj []))
                 {[ "Content-Type" := "application/json" ]} false) s1 with
      | (inl e, s2) => (inl e, a, s2)
      | (inr resp, s2) =>
          if negb (isOk resp) then
            (inl (ScriptException "ScriptException"
                    ("Failed to get auth token: " +:+ pretty (code resp))), a, s2)
          else
            match JSON_parse host (body resp) with
            | inl e => (inl e, a, s2)
            | inr d =>
                match Js.get_prop d "accessToken" with
                | inl e => (inl e, a, s2)
                | inr accessToken =>
                    match (if Js.truthy accessToken then inr accessToken
                           else Js.get_prop d "token") with
                    | inl e => (inl e, a, s2)
                    | inr token =>
                        let a1 := mkAuthState (js_or token (VStr ""))
                                    (authTokenExpiration a) (userId a) in
                        match Js.get_prop d "userId" with
                        | inl e => (inl e, a1, s2)
                        | inr uid =>
                            match (if Js.truthy uid then inr uid
                                   else Js.get_prop d "user_id") with
                            | inl e => (inl e, a1, s2)
                            | inr user =>
                                let a2 := mkAuthState (authToken a1)
                                            (now + 24 * 60 * 60 * 1000)
                                            (js_or user (VStr "")) in
                                (inr tt, a2,
                                 mkSt (world s2) (trace s2 ++ [EvLog "Auth token refreshed"]))
                            end
                        end
                    end
                end
            end
      end
  end.

Definition refreshAuthToken (now : Z) (a : AuthState) (s : St W) : AuthState * St W :=
  match refresh_try now a s with
  | (inr _, a', s') => (a', s')
  | (inl e, a', s') =>
      (a', mkSt (world s') (trace s' ++ [EvLog ("Error refreshing token: " +:+ error_to_string e)]))
  end.

Definition clearAuthState (a : AuthState) : AuthState :=
  mkAuthState (VStr "") 0 (VStr "").

End State.
End Auth.

(** ** The search pager ([pagers.ts]) *)

Record SearchPager : Type := mkSearchPager {
  pager_query : string;
  pager_type : string;
  pager_page : Z;
  pager_hasMorePages : bool
}.

Module Pager.

(** [new SearchPager(query, type)] *)
Definition create (query type : string) : SearchPager :=
  mkSearchPager query type 0 true.

Definition hasMore (p : SearchPager) : bool := pager_hasMorePages p.

(** [nextPage()]: the page of results, the pager afterwards and the
    line it logs. *)
Definition nextPage (p : SearchPager) : list value * SearchPager * string :=
  let page := pager_page p + 1 in
  ([],
   mkSearchPager (pager_query p) (pager_type p) page false,
   "SearchPager.nextPage called, page: " +:+ pretty page +:+ ", query: " +:+ pager_query p).

(** [n] calls of [nextPage] in a row: the pages, oldest first, and the
    pager afterwards. *)
Fixpoint nextPages (n : nat) (p : SearchPager) : list (list value) * SearchPager :=
  match n with
  | O => ([], p)
  | S m => let '(page, p1, _) := nextPage p in
           let '(pages, p2) := nextPages m p1 in
           (page :: pages, p2)
  end.

End Pager.

(** ** Command-line arguments ([scripts/utils.js]) *)

Module Cli.

(** [getArgValue(argName, defaultValue)] over [process.argv = args];
    [None] is [null]. *)
Definition getArgValue (args : list string) (argName : string)
    (defaultValue : option string) : option string :=
  match List.find (fun arg => Js.startsWith arg ("--" +:+ argName +:+ "=")) args with
  | Some equalArg => nth_error (Str.split "="%char equalArg) 1
  | None =>
      match List.find (fun ia => String.eqb (snd ia) ("--" +:+ argName))
                      (combine (seq 0 (length args)) args) with
      | Some (argIndex, _) =>
          match nth_error args (argIndex + 1) with
          | Some v => Some v
          | None => defaultValue
          end
      | None => defaultValue
      end
  end.

End Cli.

(** * What the properties are stated with *)

Definition is_inr {A B} (x : A + B) : bool :=
  match x with inr _ => true | inl _ => false end.

(** A status that is not OK. *)
Definition refused (o : exn + Response) : bool :=
  match o with
  | inr response => negb (isOk response)
  | inl _ => false
  end.

Section Attempts.
Context {W : Type} (host : Host W) (url : string) (r : Request).

(** The world after one more transport call of this request. *)
Definition next_world (w : W) : W := snd (http host (dispatch host url r) w).

(** The world the attempt number [i] (from 0) runs in. *)
Definition worlds (w : W) (i : nat) : W := Nat.iter i next_world w.

(** What the transport answers at attempt [i]. *)
Definition outcome (w : W) (i : nat) : exn + Response :=
  fst (http host (dispatch host url r) (worlds w i)).

Definition attempt_result (w : W) : exn + value :=
  fst (attempt host url r (mkSt w [])).

Definition attempt_events (w : W) : list event :=
  trace (snd (attempt host url r (mkSt w []))).

(** A successful attempt: the transport answers, the status is OK and
    the parsing asked for goes through (for JSON, with no [errors]). *)
Definition successful (o : exn + Response) : bool :=
  match o with
  | inl _ => false
  | inr response =>
      isOk response &&
      (if parseJson r then
         match JSON_parse host (body response) with
         | inr jsonData =>
             match Js.get_prop jsonData "errors" with
             | inr errors => negb (Js.truthy errors)
             | inl _ => false
             end
         | inl _ => false
         end
       else if parseHtml r then
         is_inr (domParser_parseFromString host (body response) "text/html")
       else true)
  end.

(** The waits of [k] retries. *)
Definition retry_waits (k : nat) : list Z :=
  if 0 <? retryDelay r then replicate k (retryDelay r) else [].

Definition wait_events (k : nat) : list event :=
  if 0 <? retryDelay r then replicate k (EvWait (retryDelay r)) else [].

(** [lastError] when the loop gives up after [n] attempts. *)
Definition final_error (n : nat) (w : W) (le : option exn) : option exn :=
  match n with
  | O => le
  | S m => match attempt_result (worlds w m) with
           | inl e => Some e
           | inr _ => None
           end
  end.

End Attempts.

Section Statements.
Context {W : Type} (host : Host W).

(** C2, as the claim states it: without [throwOnError], a request that
    never succeeds uses [retries + 1] attempts and then returns
    [null], also when what fails is the status. *)
Definition status_uses_retry_budget : Prop :=
  forall (n : nat) (url : string) (options : FetchOptions) (s : St W),
    let r := destructure options in
    throwOnError r = false ->
    retries r = Z.of_nat n ->
    (forall i, successful host r (outcome host url r (world s) i) = false) ->
    fst (_fetch host url options s) = inr VNull /\
    count_http (trace (snd (_fetch host url options s)))
      = (count_http (trace s) + (n + 1))%nat.

(** The body as C7 states it: a string as it is, nothing for an absent
    body, the JSON encoding of every other value. *)
Definition body_as_stated (d : value) : string :=
  match d with
  | VStr text => text
  | VUndefined | VNull => ""
  | _ => Json.stringify_str d
  end.

(** C7, as the claim states it, for the calls that carry a body. *)
Definition body_encoded_when_present : Prop :=
  forall (url : string) (options : FetchOptions) (w : W) (c : http_call) (b : string),
    In c (http_calls (trace (snd (_fetch host url options (mkSt w []))))) ->
    call_body c = Some b ->
    b = body_as_stated (fo_data options).

(** The body as the code makes it: the falsy values [false], [0]
    and [NaN] give the empty string, like an absent body. *)
Definition body_as_amended (d : value) : string :=
  match d with
  | VStr text => text
  | VUndefined | VNull | VBool false | VNum 0 | VNaN => ""
  | _ => Json.stringify_str d
  end.

End Statements.

(** The options [fetchGraphQL] hands to the executor. *)
Definition graphql_options (query : string) (variables : list (string * value))
    (options : FetchOptions) : FetchOptions :=
  with_parseJson true
    (with_data (VObj [("query", VStr query); ("variables", VObj variables)])
       (with_headers
          (spread {[ "Content-Type" := "application/json" ]} (default ∅ (fo_headers options)))
          (with_method "POST" options))).

(** The one transport call of [refreshAuthToken]. *)
Definition token_call (baseUrl : string) : http_call :=
  HttpPOST (baseUrl +:+ "/auth/token") "{}"
    {[ "Content-Type" := "application/json" ]} false.

Section Calls.
Context {W : Type} (host : Host W).

(** The transport call of a standard query. *)
Definition graphql_call (go : GraphQLOptions) (baseUrl : string) : http_call :=
  let endpoint := default "/graphql" (go_endpoint go) in
  HttpPOST
    (if Js.startsWith endpoint "http" then endpoint else baseUrl +:+ endpoint)
    (Json.stringify_str
       (VObj [("query", VStr (default "" (go_query go)));
              ("variables", VObj (default [] (go_variables go)))]))
    (spread (plugin_defaultHeaders host)
       (spread {[ "Content-Type" := "application/json" ]} (default ∅ (go_headers go))))
    (default false (go_useAuth go)).

(** The transport call of a persisted query. *)
Definition persisted_call (po : PersistedQueryOptions) (baseUrl : string) : http_call :=
  HttpGET (persisted_url baseUrl po)
    (spread (plugin_defaultHeaders host)
       (spread {[ "Accept" := "application/json" ]} (default ∅ (pq_headers po))))
    (default false (pq_useAuth po)).

End Calls.

(** The value of the header [k] in the merge of the header objects
    [layers], in which an object wins over the ones after it. *)
Fixpoint merged_header (k : string) (layers : list Headers) : option string :=
  match layers with
  | [] => None
  | h :: rest =>
      match h !! k with
      | Some v => Some v
      | None => merged_header k rest
      end
  end.

(** The options [fetchJson] hands to the executor. *)
Definition json_options (options : FetchOptions) : FetchOptions :=
  with_parseJson true
    (with_headers
       (spread {[ "Accept" := "application/json" ]} (default ∅ (fo_headers options)))
       options).

(** The first index, among the [n] from [from] on, at which [P] holds. *)
Fixpoint find_first (P : nat -> bool) (from n : nat) : option nat :=
  match n with
  | O => None
  | S m => if P from then Some from else find_first P (S from) m
  end.

Section Outcomes.
Context {W : Type} (host : Host W).

(** The attempt that ends the loop of the executor: the first of the
    [retries + 1] attempts that does not throw. There is none when
    they all throw, and when there is no attempt to make. *)
Definition deciding_attempt (url : string) (r : Request) (w : W) : option nat :=
  find_first (fun i => is_inr (attempt_result host url r (worlds host url r w i)))
    0 (Z.to_nat (retries r + 1)).

(** A request succeeds when the attempt that ends its loop is a
    successful one. It fails when every attempt throws, and when the
    loop ends on a status that is not OK (which, without
    [throwOnError], is the return of [null]). *)
Definition request_succeeds (url : string) (r : Request) (w : W) : bool :=
  match deciding_attempt url r w with
  | Some k => successful host r (outcome host url r w k)
  | None => false
  end.

(** The base URL a call made in the state [s] works with. *)
Definition base_url (s : St W) : string :=
  match fst (getBaseUrl host s) with
  | inr baseUrl => baseUrl
  | inl _ => ""
  end.

(** The request [executeQuery] has the executor make. *)
Definition standard_request (go : GraphQLOptions) : Request :=
  destructure
    (graphql_options (default "" (go_query go)) (default [] (go_variables go))
       (mkFetchOptions None (Some (default ∅ (go_headers go))) VUndefined
          (Some (default false (go_useAuth go)))
          (Some (default 3 (go_retries go))) None None None None)).

(** The request [executePersistedQuery] has the executor make. *)
Definition persisted_get (po : PersistedQueryOptions) : Request :=
  destructure (json_options (with_method "GET" (persisted_request po))).

(** A standard query succeeds when it has a query string and its
    request succeeds, and fails otherwise; a persisted query succeeds
    when it has its two names and its request succeeds. *)
Definition standard_query_succeeds (go : GraphQLOptions) (s : St W) : bool :=
  negb (missing (go_query go)) &&
  request_succeeds (call_url (graphql_call host go (base_url s)))
    (standard_request go) (world s).

Definition persisted_query_succeeds (po : PersistedQueryOptions) (s : St W) : bool :=
  negb (missing (pq_operationName po) || missing (pq_sha256Hash po)) &&
  request_succeeds (persisted_url (base_url s) po) (persisted_get po) (world s).

(** What a refresh of the token works with: the parse of the body of
    an OK answer, unless that is [null]. There is none when the
    transport throws, when the status is not OK and when the body does
    not parse. *)
Definition refresh_payload (o : exn + Response) : option value :=
  match o with
  | inr response =>
      if isOk response then
        match JSON_parse host (body response) with
        | inr VNull | inr VUndefined | inl _ => None
        | inr payload => Some payload
        end
      else None
  | inl _ => None
  end.

End Outcomes.

(** [v.k] for a [v] that is neither [null] nor [undefined]: a value
    that is not an object, a number say, has no field. *)
Definition field_of (v : value) (k : string) : value :=
  match Js.get_prop v k with
  | inr x => x
  | inl _ => VUndefined
  end.

(** [s] has the character [c]. *)
Fixpoint has_char (c : ascii) (s : string) : bool :=
  match s with
  | EmptyString => false
  | String x rest => Ascii.eqb x c || has_char c rest
  end.




(** ** A scripted host, for running the code on concrete inputs *)

Module Stub.

(** The world is the list of answers the transport still has to
    give; when it is used up the transport repeats [last]. *)
Definition http (last : exn + Response) (c : http_call) (w : list (exn + Response))
  : (exn + Response) * list (exn + Response) :=
  match w with
  | [] => (last, [])
  | o :: rest => (o, rest)
  end.

(** JSON.parse on the texts of [table]; a SyntaxError elsewhere. *)
Definition parse (table : list (string * value)) (text : string) : exn + value :=
  match List.find (fun p => String.eqb (fst p) text) table with
  | Some p => inr (snd p)
  | None => inl (NativeError "SyntaxError" "Unexpected token in JSON")
  end.

Definition dom (text mime : string) : exn + value := inr (VHost 0).

Definition host (last : exn + Response) (table : list (string * value)) (p : Plugin)
  : Host (list (exn + Response)) :=
  mkHost _ (http last) (parse table) dom p.

(** A plugin whose base URL setting offers [url] alone. *)
Definition plugin_at (url : string) (defaults : Headers) : Plugin :=
  mkPlugin
    (Some (mkConfig (Some [mkSetting (Some "baseUrl") (Some [url]) None])
             (Some (mkConstants (Some defaults)))))
    ∅.

Definition start (script : list (exn + Response)) : St (list (exn + Response)) :=
  mkSt script [].

(** A transport with no state, that answers [o] to every call. *)
Definition steady (o : exn + Response) (table : list (string * value)) (p : Plugin)
  : Host unit :=
  mkHost _ (fun _ w => (o, w)) (parse table) dom p.

Definition status (n : Z) : exn + Response := inr (mkResponse false n "").
Definition ok (text : string) : exn + Response := inr (mkResponse true 200 text).
Definition down : exn + Response := inl (ScriptException "NetworkError" "connection refused").

End Stub.

(** ** The executor on concrete inputs *)

Module Runs.

Definition json_text : string := "{}".

(** The transport is down, then answers 503, then answers with an
    empty JSON object. *)
Definition flaky : list (exn + Response) :=
  [Stub.down; Stub.status 503; Stub.ok json_text].

Definition host : Host (list (exn + Response)) :=
  Stub.host (Stub.status 500) [(json_text, VObj [])] (Stub.plugin_at "https://x.test" ∅).

(** [{ retries: 2, parseJson: true }] *)
Definition two_retries : FetchOptions :=
  mkFetchOptions None None VUndefined None (Some 2) None (Some true) None None.

(** [{ throwOnError: false }] *)
Definition quiet : FetchOptions :=
  mkFetchOptions None None VUndefined None None None None None (Some false).

(** [{ parseJson: true, parseHtml: true }] *)
Definition both_parsers : FetchOptions :=
  mkFetchOptions None None VUndefined None None None (Some true) (Some true) None.

(** [{ headers: { "User-Agent": "C" } }], with a plugin whose default
    headers are [{ "User-Agent": "D" }]. *)
Definition caller_agent : FetchOptions :=
  mkFetchOptions None (Some {[ "User-Agent" := "C" ]}) VUndefined None None None
    None None None.

Definition agent_host : Host (list (exn + Response)) :=
  Stub.host (Stub.ok json_text) [(json_text, VObj [])]
    (Stub.plugin_at "https://x.test" {[ "User-Agent" := "D" ]}).

(** The same, with a second default header, [{ "X-Key": "K" }]. *)
Definition keyed_host : Host (list (exn + Response)) :=
  Stub.host (Stub.ok json_text) [(json_text, VObj [])]
    (Stub.plugin_at "https://x.test" {[ "User-Agent" := "D"; "X-Key" := "K" ]}).

(** A transport that answers 500 to every call. *)
Definition failing_host : Host unit :=
  Stub.steady (Stub.status 500) [] (Stub.plugin_at "https://x.test" ∅).

(** The payload [{ errors: [{message: A}, {message: B}], data: {x: 1} }]
    and a transport that answers it, with status 200, to every call. *)
Definition errors_payload : value :=
  VObj [("errors", VArr [VObj [("message", VStr "A")]; VObj [("message", VStr "B")]]);
        ("data", VObj [("x", VNum 1)])].

Definition errors_text : string := Json.stringify_str errors_payload.

Definition errors_host : Host unit :=
  Stub.steady (Stub.ok errors_text) [(errors_text, errors_payload)]
    (Stub.plugin_at "https://x.test" ∅).

Definition feed : PersistedQueryOptions :=
  mkPersistedQueryOptions (Some "Feed") (Some "abc123") None None None None None.

Definition no_query : GraphQLOptions :=
  mkGraphQLOptions None None None None None None.

Definition no_hash : PersistedQueryOptions :=
  mkPersistedQueryOptions (Some "Feed") None None None None None None.

End Runs.

(** ** More concrete inputs *)

Module Cases.

(** The payload [{ data: { x: 1 } }] and a transport that answers it,
    with status 200, to every call. *)
Definition data_payload : value := VObj [("data", VObj [("x", VNum 1)])].

Definition data_text : string := Json.stringify_str data_payload.

Definition data_host : Host unit :=
  Stub.steady (Stub.ok data_text) [(data_text, data_payload)]
    (Stub.plugin_at "https://x.test" ∅).

(** A token endpoint that answers [{ accessToken: "t0k" }]. *)
Definition token_payload : value := VObj [("accessToken", VStr "t0k")].

Definition token_text : string := Json.stringify_str token_payload.

Definition token_host : Host unit :=
  Stub.steady (Stub.ok token_text) [(token_text, token_payload)]
    (Stub.plugin_at "https://x.test" ∅).

(** A plugin that is not enabled yet: no configuration. *)
Definition bare_host : Host unit :=
  Stub.steady (Stub.ok "") [] (mkPlugin None ∅).

(** A configuration that offers one URL and has a default, and a user
    who selected a third one. *)
Definition setting : PluginSetting :=
  mkSetting (Some "baseUrl") (Some ["https://x.test"]) (Some "https://default.test").

Definition config : PluginConfig := mkConfig (Some [setting]) None.

Definition mirror_host : Host unit :=
  Stub.steady (Stub.ok "") []
    (mkPlugin (Some config) {[ "baseUrl" := "https://mirror.test" ]}).

(** A base URL written with a trailing slash. *)
Definition slash_host : Host unit :=
  Stub.steady (Stub.ok "") [] (Stub.plugin_at "https://x.test/" ∅).

(** [{ retries: -1 }] *)
Definition no_attempts : FetchOptions :=
  mkFetchOptions None None VUndefined None (Some (-1)) None None None None.

(** [{ retries: 1, parseJson: true }] *)
Definition one_retry_json : FetchOptions :=
  mkFetchOptions None None VUndefined None (Some 1) None (Some true) None None.

(** [{ parseHtml: true }] *)
Definition html : FetchOptions :=
  mkFetchOptions None None VUndefined None None None None (Some true) None.

(** [{ query: "{viewer{id}}" }] *)
Definition viewer : GraphQLOptions :=
  mkGraphQLOptions (Some "{viewer{id}}") None None None None None.

Definition signed_out : AuthState := mkAuthState VUndefined 0 VUndefined.

(** A token endpoint that answers the JSON text [5]. *)
Definition number_host : Host unit :=
  Stub.steady (Stub.ok "5") [("5", VNum 5)] (Stub.plugin_at "https://x.test" ∅).

End Cases.

(** * Properties of the request executor *)

Lemma http_calls_app t1 t2 : http_calls (t1 ++ t2) = http_calls t1 ++ http_calls t2.
Proof. apply omap_app. Qed.

Lemma waits_app t1 t2 : waits (t1 ++ t2) = waits t1 ++ waits t2.
Proof. apply omap_app. Qed.

Lemma dom_parses_app t1 t2 : dom_parses (t1 ++ t2) = dom_parses t1 ++ dom_parses t2.
Proof. apply omap_app. Qed.

(** Among the first [n] indices either there is a first one where [P]
    holds, or [P] holds at none. *)
Lemma first_or_none (P : nat -> bool) (n : nat) :
  (exists k, (k < n)%nat /\ P k = true /\ forall i, (i < k)%nat -> P i = false) \/
  (forall i, (i < n)%nat -> P i = false).
Proof.
  induction n as [|n [(k & Hk & Hp & Hlt)|Hnone]].
  - right. intros i Hi. lia.
  - left. exists k. repeat split; auto; lia.
  - destruct (P n) eqn:Hn.
    + left. exists n. repeat split; auto.
    + right. intros i Hi. destruct (decide (i = n)) as [->|Hne]; [assumption|].
      apply Hnone. lia.
Qed.

(** [find_first] finds the first index of its range where [P] holds,
    and finds none only when there is none. *)
Lemma find_first_spec (P : nat -> bool) (n : nat) : forall from,
  match find_first P from n with
  | Some k => (from <= k < from + n)%nat /\ P k = true /\
              forall i, (from <= i < k)%nat -> P i = false
  | None => forall i, (from <= i < from + n)%nat -> P i = false
  end.
Proof.
  induction n as [|n IH]; intros from; simpl.
  - intros i Hi. lia.
  - destruct (P from) eqn:HP.
    + repeat split; auto; lia.
    + specialize (IH (S from)). destruct (find_first P (S from) n) as [k|].
      * destruct IH as (Hk & HPk & Hlt). repeat split; auto; try lia.
        intros i Hi. destruct (decide (i = from)) as [->|Hne]; [assumption|].
        apply Hlt. lia.
      * intros i Hi. destruct (decide (i = from)) as [->|Hne]; [assumption|].
        apply IH. lia.
Qed.

(** Case analysis on every test and every fallible step of an attempt. *)
Ltac attempt_cases :=
  unfold handle_response, domParser_parse, bind, lift, ret, throw, emit;
  repeat (match goal with
          | |- context [if ?b then _ else _] => destruct b
          | |- context [match ?x with inl _ => _ | inr _ => _ end] => destruct x
          end; simpl).

Section Executor.
Context {W : Type} (host : Host W) (url : string) (r : Request).

Local Abbreviation next_world := (next_world host url r).
Local Abbreviation worlds := (worlds host url r).
Local Abbreviation outcome := (outcome host url r).
Local Abbreviation attempt_result := (attempt_result host url r).
Local Abbreviation attempt_events := (attempt_events host url r).
Local Abbreviation successful := (successful host r).
Local Abbreviation retry_waits := (retry_waits r).
Local Abbreviation wait_events := (wait_events r).
Local Abbreviation final_error := (final_error host url r).

Lemma fetch_loop_eq a le s :
  fetch_loop host url r a le s =
    if 0 <? a then
      match attempt host url r s with
      | (inr v, s1) => (Returned v, s1)
      | (inl e, s1) =>
          fetch_loop host url r (a - 1) (Some e) (retry_wait r (a - 1) s1)
      end
    else (Exhausted le, s).
Proof.
  simp fetch_loop.
  destruct (Z_lt_dec 0 a) as [H|H]; simpl; destruct (Z.ltb_spec 0 a); try lia;
    [|reflexivity].
  destruct (attempt host url r s) as [[e|v] s1]; reflexivity.
Qed.

Lemma attempt_run s :
  attempt host url r s =
    (attempt_result (world s),
     mkSt (next_world (world s)) (trace s ++ attempt_events (world s))).
Proof.
  unfold attempt_result, attempt_events, next_world, attempt, bind, http_do.
  destruct s as [w t]; simpl.
  destruct (http host (dispatch host url r) w) as [[e|response] w']; simpl.
  - reflexivity.
  - attempt_cases; try reflexivity.
    all: rewrite <- ?app_assoc; reflexivity.
Qed.

Lemma attempt_events_calls w :
  http_calls (attempt_events w) = [dispatch host url r].
Proof.
  unfold attempt_events, attempt, bind, http_do; simpl.
  destruct (http host (dispatch host url r) w) as [[e|response] w']; simpl.
  - reflexivity.
  - attempt_cases; reflexivity.
Qed.

Lemma attempt_events_waits w : waits (attempt_events w) = [].
Proof.
  unfold attempt_events, attempt, bind, http_do; simpl.
  destruct (http host (dispatch host url r) w) as [[e|response] w']; simpl.
  - reflexivity.
  - attempt_cases; reflexivity.
Qed.

Lemma attempt_events_dom w :
  parseJson r = true -> dom_parses (attempt_events w) = [].
Proof.
  intros HJ.
  unfold attempt_events, attempt, bind, http_do; simpl.
  destruct (http host (dispatch host url r) w) as [[e|response] w']; simpl.
  - reflexivity.
  - unfold handle_response. rewrite HJ. attempt_cases; reflexivity.
Qed.

(** With [throwOnError] an attempt returns exactly when it is
    successful: a non-OK status is thrown like every other failure. *)
Lemma attempt_result_successful w :
  throwOnError r = true ->
  is_inr (attempt_result w) = successful (fst (http host (dispatch host url r) w)).
Proof.
  intros HT.
  unfold attempt_result, attempt, bind, http_do, successful; simpl.
  destruct (http host (dispatch host url r) w) as [[e|response] w']; simpl.
  - reflexivity.
  - unfold handle_response, domParser_parse, bind, lift, ret, throw, emit.
    rewrite HT.
    destruct (isOk response); simpl; [|reflexivity].
    destruct (parseJson r); simpl.
    + destruct (JSON_parse host (body response)) as [e|j]; simpl; [reflexivity|].
      destruct (Js.get_prop j "errors") as [e|errs]; simpl; [reflexivity|].
      destruct (Js.truthy errs); reflexivity.
    + destruct (parseHtml r); simpl; [|reflexivity].
      destruct (domParser_parseFromString host (body response) "text/html");
        reflexivity.
Qed.

(** Without [throwOnError] a non-OK status is a [return null] of the
    attempt, not a failure of it. *)
Lemma attempt_result_status w response :
  throwOnError r = false ->
  fst (http host (dispatch host url r) w) = inr response ->
  isOk response = false ->
  attempt_result w = inr VNull.
Proof.
  intros HT Hh Hok.
  unfold attempt_result, attempt, bind, http_do; simpl.
  destruct (http host (dispatch host url r) w) as [o w']; simpl in *; subst o.
  unfold handle_response. rewrite Hok, HT. reflexivity.
Qed.

(** With [throwOnError] a status that is not OK is thrown as a
    NetworkError that names the URL and the status. *)
Lemma attempt_result_status_thrown w response :
  throwOnError r = true ->
  fst (http host (dispatch host url r) w) = inr response ->
  isOk response = false ->
  attempt_result w =
    inl (ScriptException "NetworkError"
           ("Request to " +:+ url +:+ " failed with status " +:+ pretty (code response))).
Proof.
  intros HT Hh Hok.
  unfold attempt_result, attempt, bind, http_do; simpl.
  destruct (http host (dispatch host url r) w) as [o w']; simpl in *; subst o.
  unfold handle_response. rewrite Hok, HT. reflexivity.
Qed.

(** What a JSON attempt returns: [null] for a status that is not
    thrown, or the parsed body of an OK response, whose [errors] is
    not truthy. *)
Lemma attempt_result_json w v :
  parseJson r = true ->
  attempt_result w = inr v ->
  (v = VNull /\ throwOnError r = false) \/
  (exists response errors,
      fst (http host (dispatch host url r) w) = inr response /\
      isOk response = true /\
      JSON_parse host (body response) = inr v /\
      Js.get_prop v "errors" = inr errors /\ Js.truthy errors = false).
Proof.
  intros HJ.
  unfold attempt_result, attempt, bind, http_do; simpl.
  destruct (http host (dispatch host url r) w) as [[e|response] w']; simpl.
  - discriminate.
  - unfold handle_response, bind, lift, ret, throw. rewrite HJ.
    destruct (isOk response) eqn:Hok; simpl.
    + destruct (JSON_parse host (body response)) as [e|j] eqn:Hj; simpl;
        [discriminate|].
      destruct (Js.get_prop j "errors") as [e|errs] eqn:Hp; simpl; [discriminate|].
      destruct (Js.truthy errs) eqn:Ht; simpl; [discriminate|].
      intros [= <-]. right. exists response, errs. auto.
    + destruct (throwOnError r); simpl; [discriminate|].
      intros [= <-]. now left.
Qed.

Lemma worlds_next w i : worlds (next_world w) i = worlds w (S i).
Proof. unfold worlds. now rewrite Nat.iter_succ_r. Qed.

Lemma retry_wait_world a (s : St W) : world (retry_wait r a s) = world s.
Proof. unfold retry_wait. now destruct (_ && _). Qed.

Lemma wait_events_waits k : waits (wait_events k) = retry_waits k.
Proof.
  unfold wait_events, retry_waits. destruct (0 <? retryDelay r); [|reflexivity].
  induction k; simpl; [reflexivity|]. unfold waits in *; simpl. now f_equal.
Qed.

Lemma wait_events_calls k : http_calls (wait_events k) = [].
Proof.
  unfold wait_events. destruct (0 <? retryDelay r); [|reflexivity].
  induction k; simpl; auto.
Qed.

Lemma wait_events_dom k : dom_parses (wait_events k) = [].
Proof.
  unfold wait_events. destruct (0 <? retryDelay r); [|reflexivity].
  induction k; simpl; auto.
Qed.

Lemma retry_waits_S k : retry_waits 1 ++ retry_waits k = retry_waits (S k).
Proof. unfold retry_waits. now destruct (0 <? retryDelay r). Qed.

Lemma retry_wait_trace a (s : St W) :
  trace (retry_wait r a s) =
    trace s ++ (if 0 <? a then wait_events 1 else []).
Proof.
  unfold retry_wait, wait_events.
  destruct (0 <? a), (0 <? retryDelay r); simpl; now rewrite ?app_nil_r.
Qed.

(** The loop stops at the first attempt that returns. *)
Lemma fetch_loop_returns n : forall k s le v,
  (k < n)%nat ->
  (forall i, (i < k)%nat -> is_inr (attempt_result (worlds (world s) i)) = false) ->
  attempt_result (worlds (world s) k) = inr v ->
  exists t,
    fetch_loop host url r (Z.of_nat n) le s
      = (Returned v, mkSt (worlds (world s) (S k)) (trace s ++ t)) /\
    http_calls t = replicate (S k) (dispatch host url r) /\
    waits t = retry_waits k /\
    (parseJson r = true -> dom_parses t = []).
Proof.
  induction n as [|n IH]; intros k s le v Hk Hfail Hok; [lia|].
  rewrite fetch_loop_eq, attempt_run.
  replace (0 <? Z.of_nat (S n)) with true by (symmetry; apply Z.ltb_lt; lia).
  destruct k as [|k].
  - simpl in Hok. rewrite Hok.
    exists (attempt_events (world s)). split; [reflexivity|].
    rewrite attempt_events_calls, attempt_events_waits.
    repeat split; auto using attempt_events_dom.
    unfold retry_waits. now destruct (0 <? retryDelay r).
  - pose proof (Hfail O ltac:(lia)) as H0. simpl in H0.
    destruct (attempt_result (world s)) as [e|v0] eqn:Hr; [|discriminate].
    replace (Z.of_nat (S n) - 1) with (Z.of_nat n) by lia.
    set (s1 := retry_wait r (Z.of_nat n) _).
    destruct (IH k s1 (Some e) v) as (t & Hrun & Hc & Hw & Hd).
    + lia.
    + intros i Hi. subst s1. rewrite retry_wait_world; simpl.
      rewrite worlds_next. apply Hfail. lia.
    + subst s1. rewrite retry_wait_world; simpl. now rewrite worlds_next.
    + subst s1. rewrite retry_wait_world, retry_wait_trace in Hrun. simpl in Hrun.
      rewrite worlds_next in Hrun.
      replace (0 <? Z.of_nat n) with true in Hrun by (symmetry; apply Z.ltb_lt; lia).
      exists (attempt_events (world s) ++ wait_events 1 ++ t).
      split; [rewrite Hrun; now rewrite <- !app_assoc|].
      rewrite !http_calls_app, !waits_app, !dom_parses_app.
      rewrite attempt_events_calls, attempt_events_waits, Hc, Hw.
      rewrite wait_events_calls, wait_events_waits, wait_events_dom.
      simpl. rewrite retry_waits_S. repeat split; auto.
      intros HJ. now rewrite attempt_events_dom, Hd.
Qed.

(** When no attempt returns, the loop makes them all and gives up. *)
Lemma fetch_loop_exhausted n : forall s le,
  (forall i, (i < n)%nat -> is_inr (attempt_result (worlds (world s) i)) = false) ->
  exists t,
    fetch_loop host url r (Z.of_nat n) le s
      = (Exhausted (final_error n (world s) le),
         mkSt (worlds (world s) n) (trace s ++ t)) /\
    http_calls t = replicate n (dispatch host url r) /\
    waits t = retry_waits (n - 1) /\
    (parseJson r = true -> dom_parses t = []).
Proof.
  induction n as [|n IH]; intros s le Hfail.
  - rewrite fetch_loop_eq. simpl. exists []. rewrite app_nil_r.
    destruct s; repeat split; auto.
    unfold retry_waits. now destruct (0 <? retryDelay r).
  - rewrite fetch_loop_eq, attempt_run.
    replace (0 <? Z.of_nat (S n)) with true by (symmetry; apply Z.ltb_lt; lia).
    pose proof (Hfail O ltac:(lia)) as H0. simpl in H0.
    destruct (attempt_result (world s)) as [e|v0] eqn:Hr; [|discriminate].
    replace (Z.of_nat (S n) - 1) with (Z.of_nat n) by lia.
    set (s1 := retry_wait r (Z.of_nat n) _).
    destruct (IH s1 (Some e)) as (t & Hrun & Hc & Hw & Hd).
    + intros i Hi. subst s1. rewrite retry_wait_world; simpl.
      rewrite worlds_next. apply Hfail. lia.
    + subst s1. rewrite retry_wait_world, retry_wait_trace in Hrun. simpl in Hrun.
      rewrite worlds_next in Hrun.
      exists (attempt_events (world s)
                ++ (if 0 <? Z.of_nat n then wait_events 1 else []) ++ t).
      split.
      * rewrite Hrun, <- !app_assoc. f_equal. f_equal.
        destruct n as [|m]; simpl; [now rewrite Hr|].
        now rewrite worlds_next.
      * rewrite !http_calls_app, !waits_app, !dom_parses_app.
        rewrite attempt_events_calls, attempt_events_waits, Hc, Hw.
        destruct n as [|m].
        -- simpl. repeat split; auto.
           intros HJ. now rewrite attempt_events_dom, Hd.
        -- replace (0 <? Z.of_nat (S m)) with true
             by (symmetry; apply Z.ltb_lt; lia).
           rewrite wait_events_calls, wait_events_waits, wait_events_dom.
           simpl. rewrite Nat.sub_0_r, retry_waits_S. repeat split; auto.
           intros HJ. now rewrite attempt_events_dom, Hd.
Qed.

(** Every run of the executor: what it adds to the trace, and where
    a returned value comes from. *)
Lemma fetch_request_cases s :
  exists t,
    snd (fetch_request host url r s)
      = mkSt (worlds (world s) (length (http_calls t))) (trace s ++ t) /\
    http_calls t = replicate (length (http_calls t)) (dispatch host url r) /\
    (Z.of_nat (length (http_calls t)) <= Z.max 0 (retries r + 1)) /\
    (parseJson r = true -> dom_parses t = []) /\
    (forall v, fst (fetch_request host url r s) = inr v ->
               (v = VNull /\ throwOnError r = false) \/
               exists i, attempt_result (worlds (world s) i) = inr v) /\
    (throwOnError r = false -> is_inr (fst (fetch_request host url r s)) = true).
Proof.
  unfold fetch_request.
  destruct (Z.ltb_spec 0 (retries r + 1)) as [Hpos|Hneg].
  - set (n := Z.to_nat (retries r + 1)).
    replace (retries r + 1) with (Z.of_nat n) in * by lia.
    destruct (first_or_none
                (fun i => is_inr (attempt_result (worlds (world s) i))) n)
      as [(k & Hk & Hp & Hlt)|Hnone].
    + destruct (attempt_result (worlds (world s) k)) as [e|v] eqn:Hv;
        [discriminate|].
      destruct (fetch_loop_returns n k s None v Hk Hlt Hv) as (t & Hrun & Hc & _ & Hd).
      rewrite Hrun. simpl. exists t. rewrite Hc, length_replicate.
      repeat split; auto; [lia|].
      intros v' [= <-]. right. eauto.
    + destruct (fetch_loop_exhausted n s None Hnone) as (t & Hrun & Hc & _ & Hd).
      rewrite Hrun. exists t. rewrite Hc, length_replicate.
      destruct (throwOnError r); simpl; repeat split; auto; try lia; try discriminate.
      intros v [= <-]. now left.
  - rewrite fetch_loop_eq.
    replace (0 <? retries r + 1) with false by (symmetry; apply Z.ltb_ge; lia).
    exists []. rewrite app_nil_r.
    destruct s, (throwOnError r); simpl; repeat split; auto; try lia; try discriminate.
    intros v [= <-]. now left.
Qed.

(** The executor returns what the attempt that ends its loop returns;
    when no attempt does, it throws, or returns [null] without
    [throwOnError]. *)
Lemma fetch_request_decided s :
  match deciding_attempt host url r (world s) with
  | Some k => exists v, attempt_result (worlds (world s) k) = inr v /\
                        fst (fetch_request host url r s) = inr v
  | None => if throwOnError r
            then exists e, fst (fetch_request host url r s) = inl e
            else fst (fetch_request host url r s) = inr VNull
  end.
Proof.
  unfold deciding_attempt, fetch_request.
  pose proof (find_first_spec
                (fun i => is_inr (attempt_result (worlds (world s) i)))
                (Z.to_nat (retries r + 1)) 0) as Hspec.
  destruct (Z.ltb_spec 0 (retries r + 1)) as [Hpos|Hneg].
  - set (n := Z.to_nat (retries r + 1)) in *.
    replace (retries r + 1) with (Z.of_nat n) by lia.
    destruct (find_first _ 0 n) as [k|].
    + destruct Hspec as (Hk & HP & Hlt).
      destruct (attempt_result (worlds (world s) k)) as [e|v] eqn:Hv; [discriminate|].
      destruct (fetch_loop_returns n k s None v) as (t & Hrun & _);
        [lia|intros i Hi; apply Hlt; lia|exact Hv|].
      rewrite Hrun. exists v. split; reflexivity.
    + destruct (fetch_loop_exhausted n s None) as (t & Hrun & _);
        [intros i Hi; apply Hspec; lia|].
      rewrite Hrun. destruct (throwOnError r); [eexists|]; reflexivity.
  - replace (Z.to_nat (retries r + 1)) with O by lia. simpl.
    rewrite fetch_loop_eq.
    replace (0 <? retries r + 1) with false by (symmetry; apply Z.ltb_ge; lia).
    destruct (throwOnError r); [eexists|]; reflexivity.
Qed.

(** What a JSON attempt returns when it is successful, a value that
    has properties and no truthy [errors], and when it is not: [null],
    for a status that is not thrown. An attempt that throws is not
    successful. *)
Lemma attempt_json_outcome w :
  parseJson r = true ->
  match attempt_result w with
  | inr v =>
      if successful (fst (http host (dispatch host url r) w))
      then exists errors, Js.get_prop v "errors" = inr errors /\
                          Js.truthy errors = false
      else v = VNull /\ throwOnError r = false
  | inl _ => successful (fst (http host (dispatch host url r) w)) = false
  end.
Proof.
  intros HJ.
  unfold attempt_result, attempt, bind, http_do, successful; simpl.
  destruct (http host (dispatch host url r) w) as [[e|response] w']; simpl;
    [reflexivity|].
  unfold handle_response, bind, lift, ret, throw. rewrite HJ.
  destruct (isOk response); simpl.
  - destruct (JSON_parse host (body response)) as [e|j]; simpl; [reflexivity|].
    destruct (Js.get_prop j "errors") as [e|errs] eqn:Hp; simpl; [reflexivity|].
    destruct (Js.truthy errs) eqn:Ht; simpl; [reflexivity|]. eauto.
  - destruct (throwOnError r); simpl; [reflexivity|]. split; reflexivity.
Qed.

(** A JSON request returns a value that has properties and no truthy
    [errors] when it succeeds; when it fails it throws, or returns
    [null] without [throwOnError]. *)
Lemma fetch_request_json s :
  parseJson r = true ->
  if request_succeeds host url r (world s)
  then exists v errors,
         fst (fetch_request host url r s) = inr v /\
         Js.get_prop v "errors" = inr errors /\ Js.truthy errors = false
  else if throwOnError r
       then exists e, fst (fetch_request host url r s) = inl e
       else fst (fetch_request host url r s) = inr VNull.
Proof.
  intros HJ. unfold request_succeeds.
  pose proof (fetch_request_decided s) as Hdec.
  destruct (deciding_attempt host url r (world s)) as [k|]; [|exact Hdec].
  destruct Hdec as (v & Hv & Hrun).
  pose proof (attempt_json_outcome (worlds (world s) k) HJ) as Hout.
  rewrite Hv in Hout. unfold outcome.
  destruct (successful (fst (http host (dispatch host url r) (worlds (world s) k)))).
  - destruct Hout as (errors & Hp & Ht). exists v, errors. auto.
  - destruct Hout as [-> ->]. exact Hrun.
Qed.

End Executor.

Section ExecutorClaims.
Context {W : Type} (host : Host W).

(** C1. With [throwOnError] and [retries = n >= 0], the transport is
    called min(n + 1, attempts until the first successful attempt)
    times: the first success ends the loop with its value, every
    failed attempt (the transport throws, the status is not OK, the
    parsing throws) uses one attempt, and after [n + 1] failures the
    executor throws. With [retries = 0] there is one call and no wait,
    and with [retryDelay = 0] there is no wait at all. *)
Theorem fetch_attempt_count (n : nat) (url : string) (options : FetchOptions)
    (s : St W) :
  let r := destructure options in
  let succeeds i := successful host r (outcome host url r (world s) i) in
  throwOnError r = true ->
  retries r = Z.of_nat n ->
  exists t,
    trace (snd (_fetch host url options s)) = trace s ++ t /\
    (count_http t <= n + 1)%nat /\
    (forall k, succeeds k = true -> (forall i, (i < k)%nat -> succeeds i = false) ->
               count_http t = Nat.min (n + 1) (k + 1) /\
               ((k < n + 1)%nat -> is_inr (fst (_fetch host url options s)) = true)) /\
    ((forall i, (i < n + 1)%nat -> succeeds i = false) ->
     count_http t = (n + 1)%nat /\
     exists lastError,
       fst (_fetch host url options s) = inl (exhausted_error url r lastError)) /\
    (n = 0%nat -> count_http t = 1%nat /\ waits t = []) /\
    (retryDelay r = 0 -> waits t = []).
Proof.
  intros r succeeds HT Hn.
  assert (Hsucc : forall i,
             is_inr (attempt_result host url r (worlds host url r (world s) i))
             = succeeds i).
  { intros i. now apply attempt_result_successful. }
  unfold _fetch, fetch_request. fold r. rewrite Hn.
  replace (Z.of_nat n + 1) with (Z.of_nat (S n)) by lia.
  clearbody r.
  destruct (first_or_none succeeds (S n)) as [(k0 & Hk0 & Hp0 & Hlt0)|Hnone].
  - destruct (attempt_result host url r (worlds host url r (world s) k0))
      as [e|v] eqn:Hv.
    { specialize (Hsucc k0). rewrite Hv, Hp0 in Hsucc. discriminate. }
    destruct (fetch_loop_returns host url r (S n) k0 s None v)
      as (t & Hrun & Hc & Hw & _); auto.
    { intros i Hi. rewrite Hsucc. auto. }
    rewrite Hrun. simpl. exists t. unfold count_http. rewrite Hc, length_replicate.
    split; [reflexivity|]. split; [lia|]. split; [|split; [|split]].
    + intros k Hk Hlt.
      assert (k = k0) as ->.
      { destruct (Nat.lt_trichotomy k k0) as [Hl|[He|Hg]]; [|assumption|].
        - rewrite (Hlt0 k Hl) in Hk. discriminate.
        - rewrite (Hlt k0 Hg) in Hp0. discriminate. }
      split; [lia|reflexivity].
    + intros Hall. rewrite Hall in Hp0 by lia. discriminate.
    + intros ->. assert (k0 = 0%nat) as -> by lia.
      split; [reflexivity|]. rewrite Hw. unfold retry_waits.
      now destruct (0 <? retryDelay r).
    + intros H0. rewrite Hw. unfold retry_waits. now rewrite H0.
  - destruct (fetch_loop_exhausted host url r (S n) s None)
      as (t & Hrun & Hc & Hw & _).
    { intros i Hi. rewrite Hsucc. auto. }
    rewrite Hrun, HT. simpl. exists t. unfold count_http.
    rewrite Hc, length_replicate.
    split; [reflexivity|]. split; [lia|]. split; [|split; [|split]].
    + intros k Hk Hlt. split.
      * destruct (decide (k < S n)%nat) as [Hl|Hl]; [|lia].
        rewrite (Hnone k Hl) in Hk. discriminate.
      * intros Hl. rewrite Hnone in Hk by lia. discriminate.
    + intros _. split; [lia|]. eexists. reflexivity.
    + intros ->. split; [reflexivity|]. rewrite Hw. unfold retry_waits.
      now destruct (0 <? retryDelay r).
    + intros H0. rewrite Hw. unfold retry_waits. now rewrite H0.
Qed.

(** Without [throwOnError] an attempt returns when it is successful
    and also when the status is not OK. *)
Lemma attempt_result_without_throw (url : string) (r : Request) (w : W) :
  throwOnError r = false ->
  let o := fst (http host (dispatch host url r) w) in
  is_inr (attempt_result host url r w) = successful host r o || refused o.
Proof.
  intros HT o. subst o.
  unfold attempt_result, attempt, bind, http_do, successful, refused; simpl.
  destruct (http host (dispatch host url r) w) as [[e|response] w']; simpl.
  - reflexivity.
  - unfold handle_response, domParser_parse, bind, lift, ret, throw, emit.
    rewrite HT.
    destruct (isOk response); simpl; [|reflexivity].
    rewrite orb_false_r.
    destruct (parseJson r); simpl.
    + destruct (JSON_parse host (body response)) as [e|j]; simpl; [reflexivity|].
      destruct (Js.get_prop j "errors") as [e|errs]; simpl; [reflexivity|].
      destruct (Js.truthy errs); reflexivity.
    + destruct (parseHtml r); simpl; [|reflexivity].
      destruct (domParser_parseFromString host (body response) "text/html");
        reflexivity.
Qed.

(** C2, amended. Without [throwOnError] and with [retries = n >= 0], a
    request none of whose attempts succeeds returns [null] after at
    most [n + 1] transport calls: attempts that throw (the transport
    throws, or the parsing of an OK response throws) are retried, all
    [n + 1] of them when every attempt throws, and the first status
    that is not OK ends the request at once, with no further
    attempt. *)
Theorem fetch_without_throw (n : nat) (url : string) (options : FetchOptions)
    (s : St W) :
  let r := destructure options in
  let succeeds i := successful host r (outcome host url r (world s) i) in
  let refuses i := refused (outcome host url r (world s) i) in
  throwOnError r = false ->
  retries r = Z.of_nat n ->
  (forall i, (i < n + 1)%nat -> succeeds i = false) ->
  exists t,
    trace (snd (_fetch host url options s)) = trace s ++ t /\
    fst (_fetch host url options s) = inr VNull /\
    (count_http t <= n + 1)%nat /\
    ((forall i, (i < n + 1)%nat -> refuses i = false) -> count_http t = (n + 1)%nat) /\
    (forall k, (k < n + 1)%nat -> refuses k = true ->
               (forall i, (i < k)%nat -> refuses i = false) ->
               count_http t = (k + 1)%nat).
Proof.
  intros r succeeds refuses HT Hn Hnever.
  assert (Hret : forall i, (i < n + 1)%nat ->
             is_inr (attempt_result host url r (worlds host url r (world s) i))
             = refuses i).
  { intros i Hi. rewrite attempt_result_without_throw by assumption.
    fold (outcome host url r (world s) i). fold (succeeds i).
    now rewrite Hnever. }
  unfold _fetch, fetch_request. fold r. rewrite Hn.
  replace (Z.of_nat n + 1) with (Z.of_nat (S n)) by lia.
  destruct (first_or_none refuses (S n)) as [(k0 & Hk0 & Hp0 & Hlt0)|Hnone].
  - destruct (attempt_result host url r (worlds host url r (world s) k0))
      as [e|v] eqn:Hv.
    { specialize (Hret k0 ltac:(lia)). rewrite Hv, Hp0 in Hret. discriminate. }
    assert (v = VNull) as ->.
    { unfold refuses, refused, outcome in Hp0.
      destruct (fst (http host (dispatch host url r) (worlds host url r (world s) k0)))
        as [e|response] eqn:Ho; [discriminate|].
      rewrite (attempt_result_status host url r _ response HT Ho) in Hv.
      - now injection Hv.
      - now destruct (isOk response). }
    destruct (fetch_loop_returns host url r (S n) k0 s None VNull)
      as (t & Hrun & Hc & _ & _); auto.
    { intros i Hi. rewrite Hret by lia. auto. }
    rewrite Hrun. simpl. exists t. unfold count_http. rewrite Hc, length_replicate.
    split; [reflexivity|]. split; [reflexivity|]. split; [lia|]. split.
    + intros Hall. rewrite Hall in Hp0 by lia. discriminate.
    + intros k Hk Hrk Hlt.
      assert (k = k0) as ->; [|lia].
      destruct (Nat.lt_trichotomy k k0) as [Hl|[He|Hg]]; [|assumption|].
      * rewrite (Hlt0 k Hl) in Hrk. discriminate.
      * rewrite (Hlt k0 Hg) in Hp0. discriminate.
  - destruct (fetch_loop_exhausted host url r (S n) s None)
      as (t & Hrun & Hc & _ & _).
    { intros i Hi. rewrite Hret by lia. auto. }
    rewrite Hrun, HT. simpl. exists t. unfold count_http.
    rewrite Hc, length_replicate.
    split; [reflexivity|]. split; [reflexivity|]. split; [lia|]. split.
    + intros _. lia.
    + intros k Hk Hrk _. rewrite Hnone in Hrk by lia. discriminate.
Qed.

(** What every run of [_fetch] adds to the trace: transport calls that
    are all the call of this request. *)
Lemma fetch_calls (url : string) (options : FetchOptions) (s : St W) :
  exists t,
    trace (snd (_fetch host url options s)) = trace s ++ t /\
    Forall (fun c => c = dispatch host url (destructure options)) (http_calls t) /\
    (parseJson (destructure options) = true -> dom_parses t = []).
Proof.
  unfold _fetch.
  destruct (fetch_request_cases host url (destructure options) s)
    as (t & Hs & Hc & _ & Hd & _).
  exists t. rewrite Hs. split; [reflexivity|]. split; [|assumption].
  rewrite Hc. apply Forall_replicate. reflexivity.
Qed.

Lemma serialize_body_amended (d : value) : serialize_body d = body_as_amended d.
Proof.
  destruct d as [| |[]|[]| |text| | |]; try reflexivity.
  unfold serialize_body. simpl.
  destruct (String.eqb_spec text ""); simpl; congruence.
Qed.

Lemma call_body_dispatch (url : string) (options : FetchOptions) :
  call_body (dispatch host url (destructure options)) =
    if String.eqb (Js.toUpperCase (method (destructure options))) "GET" then None
    else Some (body_as_amended (fo_data options)).
Proof.
  assert (Hd : serialize_body (data (destructure options))
               = body_as_amended (fo_data options)).
  { rewrite serialize_body_amended. simpl. now destruct (fo_data options). }
  unfold dispatch. cbv zeta.
  destruct (String.eqb (Js.toUpperCase _) "GET"); [reflexivity|].
  destruct (String.eqb (Js.toUpperCase _) "POST"); cbn [call_body]; now rewrite Hd.
Qed.

(** Every transport call of the executor carries no body when the
    method is GET, and otherwise the body the code makes from the
    [data] option. *)
Lemma fetch_body_amended (url : string) (options : FetchOptions) (s : St W) :
  exists t,
    trace (snd (_fetch host url options s)) = trace s ++ t /\
    Forall (fun c =>
              call_body c =
                if String.eqb (Js.toUpperCase (method (destructure options))) "GET"
                then None
                else Some (body_as_amended (fo_data options)))
           (http_calls t).
Proof.
  destruct (fetch_calls url options s) as (t & Ht & Hc & _).
  exists t. split; [assumption|].
  eapply Forall_impl; [exact Hc|].
  intros c ->. apply call_body_dispatch.
Qed.

Lemma body_as_amended_stated (d : value) :
  d <> VBool false -> d <> VNum 0 -> d <> VNaN ->
  body_as_amended d = body_as_stated d.
Proof. destruct d as [| |[]|[]| |text| | |]; intros; try reflexivity; congruence. Qed.

(** C7, amended. When the [data] option is none of the falsy values
    [false], [0] and [NaN], every transport call of the executor that
    carries a body (every call but a GET) carries the string as it is
    when [data] is a string, the empty string when [data] is absent or
    [null], and the JSON encoding of [data] otherwise. *)
Theorem fetch_body_serialized (url : string) (options : FetchOptions) (s : St W) :
  fo_data options <> VBool false ->
  fo_data options <> VNum 0 ->
  fo_data options <> VNaN ->
  exists t,
    trace (snd (_fetch host url options s)) = trace s ++ t /\
    Forall (fun c =>
              call_body c =
                if String.eqb (Js.toUpperCase (method (destructure options))) "GET"
                then None
                else Some (body_as_stated (fo_data options)))
           (http_calls t).
Proof.
  intros Hfalse Hzero Hnan.
  destruct (fetch_body_amended url options s) as (t & Ht & Hc).
  exists t. split; [assumption|].
  now rewrite <- body_as_amended_stated.
Qed.

(** Case analysis on every header object that is looked up. *)
Ltac lookup_cases :=
  repeat match goal with
         | |- context [match ?h !! ?k with Some _ => _ | None => _ end] =>
             destruct (h !! k)
         end;
  reflexivity.

(** In [{ ...a, ...b }] a key has the value [b] gives it, and the
    value [a] gives it when [b] has none. *)
Lemma spread_lookup (a b : Headers) (k : string) :
  spread a b !! k = merged_header k [b; a].
Proof.
  unfold spread. rewrite lookup_union. simpl.
  destruct (b !! k), (a !! k); reflexivity.
Qed.

(** Every transport call of [_fetch] carries the headers the executor
    has merged. *)
Lemma fetch_effective_headers (url : string) (options : FetchOptions) (s : St W) :
  exists t,
    trace (snd (_fetch host url options s)) = trace s ++ t /\
    Forall (fun c => call_headers c = effective_headers host (destructure options))
           (http_calls t).
Proof.
  destruct (fetch_calls url options s) as (t & Ht & Hc & _).
  exists t. split; [assumption|].
  eapply Forall_impl; [exact Hc|].
  intros c ->. unfold dispatch. now repeat destruct (String.eqb _ _).
Qed.

(** The same, header by header, for a request whose headers are the
    merge [layers]. *)
Lemma fetch_merged_headers (url : string) (options : FetchOptions) (s : St W)
    (k : string) (layers : list Headers) :
  effective_headers host (destructure options) !! k = merged_header k layers ->
  exists t,
    trace (snd (_fetch host url options s)) = trace s ++ t /\
    Forall (fun c => call_headers c !! k = merged_header k layers) (http_calls t).
Proof.
  intros Hk.
  destruct (fetch_effective_headers url options s) as (t & Ht & Hc).
  exists t. split; [assumption|].
  eapply Forall_impl; [exact Hc|].
  intros c ->. exact Hk.
Qed.

(** C8. The headers of every transport call are the merge of the
    caller's headers over the default headers of the plugin: a header
    has the caller's value when the caller sets it, and the default
    value, if there is one, when the caller does not. The JSON
    variants put their own header between the two: a header has the
    caller's value, else application/json for Accept ([fetchJson],
    [getJson]; for Content-Type and Accept with [postJson]), else the
    default value. *)
Theorem caller_headers_win (url : string) (options : FetchOptions) (d : value)
    (s : St W) (k : string) :
  effective_headers host (destructure options) !! k
    = merged_header k [default ∅ (fo_headers options); plugin_defaultHeaders host] /\
  (exists t, trace (snd (_fetch host url options s)) = trace s ++ t /\
             Forall (fun c => call_headers c !! k
                              = merged_header k [default ∅ (fo_headers options);
                                                 plugin_defaultHeaders host])
                    (http_calls t)) /\
  (exists t, trace (snd (fetchJson host url options s)) = trace s ++ t /\
             Forall (fun c => call_headers c !! k
                              = merged_header k [default ∅ (fo_headers options);
                                                 {[ "Accept" := "application/json" ]};
                                                 plugin_defaultHeaders host])
                    (http_calls t)) /\
  (exists t, trace (snd (getJson host url options s)) = trace s ++ t /\
             Forall (fun c => call_headers c !! k
                              = merged_header k [default ∅ (fo_headers options);
                                                 {[ "Accept" := "application/json" ]};
                                                 plugin_defaultHeaders host])
                    (http_calls t)) /\
  (exists t, trace (snd (postJson host url d options s)) = trace s ++ t /\
             Forall (fun c => call_headers c !! k
                              = merged_header k [default ∅ (fo_headers options);
                                                 {[ "Content-Type" := "application/json" ]};
                                                 {[ "Accept" := "application/json" ]};
                                                 plugin_defaultHeaders host])
                    (http_calls t)).
Proof.
  assert (Hplain : effective_headers host (destructure options) !! k
                   = merged_header k [default ∅ (fo_headers options);
                                      plugin_defaultHeaders host]).
  { unfold effective_headers. now rewrite spread_lookup. }
  split; [exact Hplain|].
  split; [now apply fetch_merged_headers|].
  split; [|split].
  - unfold fetchJson. apply fetch_merged_headers.
    unfold effective_headers. rewrite spread_lookup. simpl.
    rewrite spread_lookup. simpl. lookup_cases.
  - unfold getJson, fetchJson. apply fetch_merged_headers.
    unfold effective_headers. rewrite spread_lookup. simpl.
    rewrite spread_lookup. simpl. lookup_cases.
  - unfold postJson, fetchJson. apply fetch_merged_headers.
    unfold effective_headers. repeat (rewrite spread_lookup; simpl).
    lookup_cases.
Qed.

(** An OK response whose body parses to a value with no truthy
    [errors] makes a JSON attempt return that value. *)
Lemma attempt_result_parsed (url : string) (r : Request) (w : W)
    (response : Response) (v errors : value) :
  parseJson r = true ->
  fst (http host (dispatch host url r) w) = inr response ->
  isOk response = true ->
  JSON_parse host (body response) = inr v ->
  Js.get_prop v "errors" = inr errors ->
  Js.truthy errors = false ->
  attempt_result host url r w = inr v.
Proof.
  intros HJ Hh Hok Hparse Hp Ht.
  unfold attempt_result, attempt, bind, http_do; simpl.
  destruct (http host (dispatch host url r) w) as [o w']; simpl in *; subst o.
  unfold handle_response, bind, lift, ret. rewrite Hok, HJ. simpl.
  now rewrite Hparse, Hp, Ht.
Qed.

(** C9. With [parseJson] and [parseHtml] both set, the executor parses
    JSON: the DOM parser is never called, whatever the executor returns
    is [null] or the JSON value parsed from the body of an OK response,
    and an OK first response whose body parses to a value with no truthy
    [errors] makes it return that value. *)
Theorem json_before_html (url : string) (options : FetchOptions) (s : St W) :
  fo_parseJson options = Some true ->
  fo_parseHtml options = Some true ->
  let r := destructure options in
  exists t,
    trace (snd (_fetch host url options s)) = trace s ++ t /\
    dom_parses t = [] /\
    (forall v, fst (_fetch host url options s) = inr v ->
               v = VNull \/
               exists i response,
                 outcome host url r (world s) i = inr response /\
                 isOk response = true /\
                 JSON_parse host (body response) = inr v) /\
    (forall response v errors,
        0 <= retries r ->
        outcome host url r (world s) 0 = inr response ->
        isOk response = true ->
        JSON_parse host (body response) = inr v ->
        Js.get_prop v "errors" = inr errors ->
        Js.truthy errors = false ->
        fst (_fetch host url options s) = inr v).
Proof.
  intros HJ HH r.
  assert (HJr : parseJson r = true) by (subst r; simpl; now rewrite HJ).
  unfold _fetch. fold r.
  destruct (fetch_request_cases host url r s) as (t & Hs & _ & _ & Hd & Hv & _).
  exists t. rewrite Hs. split; [reflexivity|]. split; [auto|]. split.
  - intros v Hres. destruct (Hv v Hres) as [[-> _]|[i Hi]]; [now left|].
    destruct (attempt_result_json host url r _ v HJr Hi)
      as [[-> _]|(response & errors & Ho & Hok & Hparse & _)]; [now left|].
    right. exists i, response. auto.
  - intros response v errors Hretries Ho Hok Hparse Hp Ht.
    unfold fetch_request.
    replace (retries r + 1) with (Z.of_nat (S (Z.to_nat (retries r)))) by lia.
    destruct (fetch_loop_returns host url r (S (Z.to_nat (retries r))) 0 s None v)
      as (t' & -> & _); [lia|intros i Hi; lia| |reflexivity].
    simpl. eapply attempt_result_parsed; eauto.
Qed.

End ExecutorClaims.

(** Once the script is used up the world stays empty. *)
Lemma stub_worlds_empty (h : Host (list (exn + Response))) url r i :
  http h = Stub.http (Stub.status 500) ->
  worlds h url r [] i = [].
Proof.
  intros Hh. induction i as [|i IH]; [reflexivity|].
  unfold worlds in *. simpl. rewrite IH. unfold next_world. now rewrite Hh.
Qed.

Lemma fetch_attempt_count_witness :
  exists t,
    trace (snd (_fetch Runs.host "https://x.test/a" Runs.two_retries (Stub.start Runs.flaky)))
      = [] ++ t /\
    count_http t = Nat.min (2 + 1) (2 + 1).
Proof.
  destruct (fetch_attempt_count Runs.host 2 "https://x.test/a" Runs.two_retries
              (Stub.start Runs.flaky) eq_refl eq_refl) as (t & Ht & _ & Hfirst & _).
  exists t. split; [exact Ht|].
  apply (Hfirst 2%nat); [reflexivity|].
  intros [|[|i]] Hi; [reflexivity|reflexivity|lia].
Defined.

(** C2 fails on the code: with [throwOnError: false] and the default
    three retries, a transport that always answers 500 is called once,
    not four times. *)
Lemma status_uses_retry_budget_counterexample :
  ~ status_uses_retry_budget Runs.host.
Proof.
  intros Hclaim.
  destruct (Hclaim 3%nat "https://x.test/a" Runs.quiet (Stub.start []))
    as [_ Hcount].
  - reflexivity.
  - reflexivity.
  - intros i. unfold outcome. simpl. now rewrite stub_worlds_empty by reflexivity.
  - vm_compute in Hcount. discriminate.
Qed.

Lemma fetch_without_throw_witness :
  exists t,
    trace (snd (_fetch Runs.host "https://x.test/a" Runs.quiet (Stub.start [Stub.down])))
      = [] ++ t /\
    fst (_fetch Runs.host "https://x.test/a" Runs.quiet (Stub.start [Stub.down]))
      = inr VNull /\
    count_http t = (1 + 1)%nat.
Proof.
  destruct (fetch_without_throw Runs.host 3 "https://x.test/a" Runs.quiet
              (Stub.start [Stub.down]) eq_refl eq_refl) as (t & Ht & Hres & _ & _ & Hk).
  - intros [|[|[|[|i]]]] Hi; try reflexivity. lia.
  - exists t. split; [exact Ht|]. split; [exact Hres|].
    apply (Hk 1%nat); [lia|reflexivity|].
    intros [|i] Hi; [reflexivity|lia].
Defined.

(** * Properties of the GraphQL layer *)

Lemma prefix_app (needle post : string) : String.prefix needle (needle +:+ post) = true.
Proof.
  induction needle as [|c needle IH].
  - change ("" +:+ post) with post. now destruct post.
  - change (String c needle +:+ post) with (String c (needle +:+ post)).
    simpl. destruct (ascii_dec c c); [assumption|congruence].
Qed.

Lemma includes_eq (hay needle : string) :
  Js.includes hay needle =
    if String.prefix needle hay then true
    else match hay with
         | EmptyString => false
         | String _ rest => Js.includes rest needle
         end.
Proof. destruct hay; reflexivity. Qed.

Lemma includes_app (pre needle post : string) :
  Js.includes (pre +:+ needle +:+ post) needle = true.
Proof.
  induction pre as [|c pre IH].
  - change ("" +:+ needle +:+ post) with (needle +:+ post).
    now rewrite includes_eq, prefix_app.
  - change (String c pre +:+ needle +:+ post) with (String c (pre +:+ needle +:+ post)).
    rewrite includes_eq, IH. now destruct (String.prefix needle _).
Qed.

(** A value that has one property has them all. *)
Lemma get_prop_defined (d v : value) (k k' : string) :
  Js.get_prop d k = inr v -> exists v', Js.get_prop d k' = inr v'.
Proof. destruct d; simpl; try discriminate; eauto. Qed.

Section GraphQLClaims.
Context {W : Type} (host : Host W).

(** [getBaseUrl] returns, and only logs. *)
Lemma getBaseUrl_run (s : St W) :
  exists baseUrl t,
    getBaseUrl host s = (inr baseUrl, mkSt (world s) (trace s ++ t)) /\
    http_calls t = [] /\ dom_parses t = [].
Proof.
  unfold getBaseUrl, log, emit, bind, ret.
  destruct (plugin_config (plugin host)) as [cfg|].
  - destruct (default [] _) as [|first rest].
    + eexists _, [_]. simpl. repeat split; reflexivity.
    + eexists _, []. simpl. rewrite app_nil_r. destruct s. repeat split; reflexivity.
  - eexists _, [_]. simpl. repeat split; reflexivity.
Qed.

(** A transport that always answers with a status that is not OK
    exhausts a throwing request: the error names the URL twice, the
    number of attempts and the last status. *)
Lemma fetch_request_refused (n : nat) (url : string) (r : Request) (s : St W) :
  throwOnError r = true ->
  retries r = Z.of_nat n ->
  (forall c w, refused (fst (http host c w)) = true) ->
  exists t (status : Z),
    fetch_request host url r s =
      (inl (exhausted_error url r
              (Some (ScriptException "NetworkError"
                       ("Request to " +:+ url +:+ " failed with status "
                        +:+ pretty status)))),
       mkSt (worlds host url r (world s) (S n)) (trace s ++ t)) /\
    http_calls t = replicate (S n) (dispatch host url r).
Proof.
  intros HT Hn Hrefused.
  assert (Hthrown : forall w, exists status : Z,
             attempt_result host url r w =
               inl (ScriptException "NetworkError"
                      ("Request to " +:+ url +:+ " failed with status "
                       +:+ pretty status))).
  { intros w. specialize (Hrefused (dispatch host url r) w).
    destruct (fst (http host (dispatch host url r) w)) as [e|response] eqn:Ho;
      [discriminate|].
    exists (code response). apply attempt_result_status_thrown; auto.
    simpl in Hrefused. now destruct (isOk response). }
  unfold fetch_request. rewrite Hn.
  replace (Z.of_nat n + 1) with (Z.of_nat (S n)) by lia.
  destruct (fetch_loop_exhausted host url r (S n) s None) as (t & Hrun & Hc & _).
  { intros i _. destruct (Hthrown (worlds host url r (world s) i)) as [st ->].
    reflexivity. }
  rewrite Hrun, HT. simpl.
  destruct (Hthrown (worlds host url r (world s) n)) as [status ->].
  exists t, status. split; [reflexivity|assumption].
Qed.

(** C3. When the transport answers every call with a status that is
    not OK, [query] throws a GraphQLError whose message is that of the
    executor's NetworkError: it names the URL the four POSTs went to
    (the base URL followed by /graphql), the number of attempts and the
    last status. *)
Theorem query_raises_with_url (queryString : string)
    (variables : option (list (string * value))) (s : St W) :
  queryString <> "" ->
  (forall c w, refused (fst (http host c w)) = true) ->
  exists baseUrl (status : Z) t,
    fst (getBaseUrl host s) = inr baseUrl /\
    let url := baseUrl +:+ "/graphql" in
    let msg := "Request to " +:+ url +:+ " failed after 4 attempts: "
               +:+ "Request to " +:+ url +:+ " failed with status " +:+ pretty status in
    fst (query host queryString variables s) = inl (ScriptException "GraphQLError" msg) /\
    Js.includes msg url = true /\
    trace (snd (query host queryString variables s)) = trace s ++ t /\
    count_http t = 4%nat /\
    Forall (fun c => call_url c = url) (http_calls t).
Proof.
  intros Hq Hrefused.
  destruct (getBaseUrl_run s) as (baseUrl & t0 & Hbase & Hc0 & _).
  set (url := baseUrl +:+ "/graphql").
  set (options := mkGraphQLOptions (Some queryString) variables None None None None).
  pose (r := destructure
               (with_parseJson true
                  (with_data
                     (VObj [("query", VStr queryString);
                            ("variables", VObj (default [] variables))])
                     (with_headers
                        (spread {[ "Content-Type" := "application/json" ]} ∅)
                        (with_method "POST"
                           (mkFetchOptions None (Some ∅) VUndefined (Some false)
                              (Some 3) None None None None)))))).
  destruct (fetch_request_refused 3 url r (mkSt (world s) (trace s ++ t0))
              eq_refl eq_refl Hrefused) as (t & status & Hrun & Hc).
  assert (Htry : executeQuery_try host options s =
                   (inl (exhausted_error url r
                           (Some (ScriptException "NetworkError"
                                    ("Request to " +:+ url +:+ " failed with status "
                                     +:+ pretty status)))),
                    mkSt (worlds host url r (world s) 4) (trace s ++ t0 ++ t))).
  { unfold executeQuery_try, bind. rewrite Hbase.
    unfold fetchGraphQL, bind, _fetch.
    change (fetch_request host _ _ _)
      with (fetch_request host url r (mkSt (world s) (trace s ++ t0))).
    cbn [world trace] in Hrun. rewrite Hrun. cbv beta iota.
    now rewrite <- app_assoc. }
  assert (Hexec : exists c,
             executeQuery host options s =
               (inr (Some (mkGraphQLError c
                             ("Request to " +:+ url +:+ " failed after 4 attempts: "
                              +:+ "Request to " +:+ url +:+ " failed with status "
                              +:+ pretty status) None None), VNull),
                mkSt (worlds host url r (world s) 4) (trace s ++ t0 ++ t))).
  { unfold executeQuery.
    replace (missing (go_query options)) with false
      by (symmetry; now apply String.eqb_neq).
    unfold try_catch. rewrite Htry. unfold executeQuery_catch.
    match goal with
    | |- context [if ?b then _ else _] => destruct b
    end; eexists; reflexivity. }
  destruct Hexec as (c & Hexec).
  exists baseUrl, status, (t0 ++ t).
  split; [now rewrite Hbase|].
  unfold query, bind. fold options. rewrite Hexec.
  split; [reflexivity|].
  split; [apply (includes_app "Request to ")|].
  split; [reflexivity|].
  unfold count_http. rewrite http_calls_app, Hc0, Hc.
  split; [reflexivity|].
  repeat constructor.
Qed.

(** What the [catch] of [executeQuery] returns. *)
Lemma executeQuery_catch_run (error : exn) (s : St W) :
  exists c : string,
    executeQuery_catch error s =
      (inr (Some (mkGraphQLError c (exn_message error) None None), VNull), s).
Proof.
  unfold executeQuery_catch.
  match goal with
  | |- context [if ?b then _ else _] => destruct b
  end; eexists; reflexivity.
Qed.

(** The [try] of [executePersistedQuery] throws or returns a pair with
    no error: what [getJson] returns has no truthy [errors], so the
    branch that builds the GQL_ERROR pair is never taken. *)
Lemma executePersistedQuery_try_cases (options : PersistedQueryOptions) (s : St W) :
  (exists e, fst (executePersistedQuery_try host options s) = inl e) \/
  (exists d, fst (executePersistedQuery_try host options s) = inr (None, d)).
Proof.
  destruct (getBaseUrl_run s) as (baseUrl & t0 & Hbase & _).
  unfold executePersistedQuery_try, bind. rewrite Hbase.
  unfold getJson, fetchJson, _fetch.
  match goal with
  | |- context [fetch_request host ?u ?r ?s1] =>
      destruct (fetch_request_cases host u r s1) as (t & _ & _ & _ & _ & Hv & _);
      pose proof (attempt_result_json host u r) as Hjson;
      destruct (fetch_request host u r s1) as [[e|v] s2]
  end.
  { left. eexists. reflexivity. }
  specialize (Hv v eq_refl).
  assert (Hcases : v = VNull \/
            exists errors, Js.get_prop v "errors" = inr errors /\
                           Js.truthy errors = false).
  { destruct Hv as [[-> _]|[i Hi]]; [now left|].
    destruct (Hjson _ _ eq_refl Hi) as [[-> _]|(resp & errors & _ & _ & _ & Hp & Ht)];
      [now left|right; eauto]. }
  clear Hv Hjson.
  destruct Hcases as [->|(errors & Hp & Ht)].
  { left. eexists. reflexivity. }
  destruct (Js.truthy v) eqn:Hresp; unfold lift, ret.
  - rewrite Hp, Ht.
    destruct (Js.get_prop v "data") as [e|d]; [left|right]; eexists; reflexivity.
  - rewrite Hresp.
    destruct (Js.get_prop v "data") as [e|d]; [left|right]; eexists; reflexivity.
Qed.

(** C5. A standard query whose query string is absent or empty, and a
    persisted query whose operationName or sha256Hash is absent or
    empty, return their error (INVALID_QUERY, INVALID_PERSISTED_QUERY)
    with [null] data and leave the state as it was: the transport is
    not called. *)
Theorem graphql_fail_fast (go : GraphQLOptions) (po : PersistedQueryOptions)
    (s : St W) :
  missing (go_query go) = true ->
  missing (pq_operationName po) = true \/ missing (pq_sha256Hash po) = true ->
  (executeQuery host go s
     = (inr (Some (mkGraphQLError "INVALID_QUERY" "Query string is required" None None),
             VNull), s) /\
   count_http (trace (snd (executeQuery host go s))) = count_http (trace s)) /\
  (executePersistedQuery host po s
     = (inr (Some (mkGraphQLError "INVALID_PERSISTED_QUERY"
                     "operationName and sha256Hash are required" None None),
             VNull), s) /\
   count_http (trace (snd (executePersistedQuery host po s))) = count_http (trace s)).
Proof.
  intros Hq Hp.
  unfold executeQuery, executePersistedQuery. rewrite Hq.
  replace (missing (pq_operationName po) || missing (pq_sha256Hash po)) with true
    by (symmetry; apply orb_true_iff; exact Hp).
  repeat split.
Qed.

(** [fetchGraphQL] returns exactly when its request succeeds: the data
    it reads are those of a payload that has properties. *)
Lemma fetchGraphQL_outcome (go : GraphQLOptions) (url : string) (s : St W) :
  is_inr (fst (fetchGraphQL host url (default "" (go_query go))
                 (default [] (go_variables go))
                 (mkFetchOptions None (Some (default ∅ (go_headers go))) VUndefined
                    (Some (default false (go_useAuth go)))
                    (Some (default 3 (go_retries go))) None None None None) s))
    = request_succeeds host url (standard_request go) (world s).
Proof.
  pose proof (fetch_request_json host url (standard_request go) s eq_refl) as Hjson.
  unfold fetchGraphQL, bind, _fetch.
  change (fetch_request host url _ s)
    with (fetch_request host url (standard_request go) s).
  destruct (request_succeeds host url (standard_request go) (world s)).
  - destruct Hjson as (v & errors & Hrun & Hp & _).
    destruct (fetch_request host url (standard_request go) s) as [res s1].
    simpl in Hrun. subst res.
    destruct (get_prop_defined v errors "errors" "data" Hp) as [d Hd].
    unfold lift, ret. rewrite Hd.
    destruct (Js.truthy v); [|reflexivity].
    now destruct (Js.truthy d).
  - change (throwOnError (standard_request go)) with true in Hjson.
    destruct Hjson as [e Hrun].
    destruct (fetch_request host url (standard_request go) s) as [res s1].
    simpl in Hrun. now subst res.
Qed.

(** The value [getJson] gets for a persisted query: one that has
    properties and no truthy [errors] when the request succeeds, and
    [null] when it fails. *)
Lemma persisted_get_outcome (po : PersistedQueryOptions) (url : string) (s : St W) :
  exists v,
    fst (getJson host url (persisted_request po) s) = inr v /\
    if request_succeeds host url (persisted_get po) (world s)
    then exists errors, Js.get_prop v "errors" = inr errors /\ Js.truthy errors = false
    else v = VNull.
Proof.
  pose proof (fetch_request_json host url (persisted_get po) s eq_refl) as Hjson.
  unfold getJson, fetchJson, _fetch.
  change (fetch_request host url _ s)
    with (fetch_request host url (persisted_get po) s).
  destruct (request_succeeds host url (persisted_get po) (world s)).
  - destruct Hjson as (v & errors & Hrun & Hp & Ht). exists v. eauto.
  - change (throwOnError (persisted_get po)) with false in Hjson.
    exists VNull. auto.
Qed.

(** C6. Both tuple forms return a pair, they do not throw, and the two
    slots of the pair are never both populated: the error is [null],
    or the error is set and the data are [null]. Which of the two it
    is follows the outcome of the query. When the query fails (its
    guard refuses it, every attempt of its request throws, or the
    request ends on a status that is not OK) the error is set and the
    data are [null]; when it succeeds the error is [null]. *)
Theorem graphql_result_invariant (go : GraphQLOptions) (po : PersistedQueryOptions)
    (s : St W) :
  (exists error d,
      fst (executeQuery host go s) = inr (error, d) /\
      (error = None \/ (is_Some error /\ d = VNull)) /\
      if standard_query_succeeds host go s
      then error = None
      else is_Some error /\ d = VNull) /\
  (exists error d,
      fst (executePersistedQuery host po s) = inr (error, d) /\
      (error = None \/ (is_Some error /\ d = VNull)) /\
      if persisted_query_succeeds host po s
      then error = None
      else is_Some error /\ d = VNull).
Proof.
  destruct (getBaseUrl_run s) as (baseUrl & t0 & Hbase & _).
  assert (Hurl : base_url host s = baseUrl).
  { unfold base_url. now rewrite Hbase. }
  split.
  - unfold executeQuery, standard_query_succeeds. rewrite Hurl.
    destruct (missing (go_query go)); cbn [negb andb].
    { eexists _, _. split; [reflexivity|].
      split; [right|]; (split; [eexists|]; reflexivity). }
    pose proof (fetchGraphQL_outcome go (call_url (graphql_call host go baseUrl))
                  (mkSt (world s) (trace s ++ t0))) as Hout.
    cbn [world] in Hout. rewrite <- Hout. clear Hout.
    unfold try_catch, executeQuery_try, bind. rewrite Hbase.
    change (call_url (graphql_call host go baseUrl))
      with (if Js.startsWith (default "/graphql" (go_endpoint go)) "http"
            then default "/graphql" (go_endpoint go)
            else baseUrl +:+ default "/graphql" (go_endpoint go)).
    destruct (fetchGraphQL host _ _ _ _ _) as [[e|v] s1]; cbn [fst is_inr].
    + destruct (executeQuery_catch_run e s1) as [c ->].
      eexists _, _. split; [reflexivity|].
      split; [right|]; (split; [eexists|]; reflexivity).
    + eexists _, _. split; [reflexivity|]. split; [left|]; reflexivity.
  - unfold executePersistedQuery, persisted_query_succeeds. rewrite Hurl.
    destruct (missing (pq_operationName po) || missing (pq_sha256Hash po));
      cbn [negb andb].
    { eexists _, _. split; [reflexivity|].
      split; [right|]; (split; [eexists|]; reflexivity). }
    destruct (persisted_get_outcome po (persisted_url baseUrl po)
                (mkSt (world s) (trace s ++ t0))) as (v & Hrun & Hcase).
    cbn [world] in Hcase.
    unfold try_catch, executePersistedQuery_try, bind. rewrite Hbase.
    destruct (getJson host _ _ _) as [res s1]. simpl in Hrun. subst res.
    destruct (request_succeeds host _ (persisted_get po) (world s)).
    + destruct Hcase as (errors & Hp & Ht).
      destruct (get_prop_defined v errors "errors" "data" Hp) as [d Hd].
      unfold lift, ret. rewrite Hd.
      exists None, d.
      destruct (Js.truthy v) eqn:Hv.
      * rewrite Hp. cbv beta iota. rewrite Ht.
        split; [reflexivity|]. split; [left|]; reflexivity.
      * cbv beta iota. rewrite Hv.
        split; [reflexivity|]. split; [left|]; reflexivity.
    + subst v. eexists _, _. split; [reflexivity|].
      split; [right|]; (split; [eexists|]; reflexivity).
Qed.

(** C10. When the GET of a persisted query yields [null], reading
    [response.data] throws inside the [try]; the [catch] turns that
    into the returned pair of an EXCEPTION error (with the TypeError's
    message and the operation name) and [null] data. Nothing is
    thrown to the caller. *)
Theorem persisted_null_is_exception (options : PersistedQueryOptions)
    (s s1 : St W) (baseUrl : string) :
  missing (pq_operationName options) = false ->
  missing (pq_sha256Hash options) = false ->
  getBaseUrl host s = (inr baseUrl, s1) ->
  fst (getJson host (persisted_url baseUrl options) (persisted_request options) s1)
    = inr VNull ->
  fst (executePersistedQuery host options s)
    = inr (Some (mkGraphQLError "EXCEPTION"
                   "Cannot read properties of null (reading 'data')"
                   None (pq_operationName options)),
           VNull).
Proof.
  intros Hop Hhash Hbase Hnull.
  unfold executePersistedQuery. rewrite Hop, Hhash.
  change (false || false) with false. cbv beta iota.
  unfold try_catch, executePersistedQuery_try, bind. rewrite Hbase.
  destruct (getJson host _ _ s1) as [res s2]. simpl in Hnull. subst res.
  unfold executePersistedQuery_catch.
  destruct (pq_operationName options) as [name|]; [|discriminate].
  reflexivity.
Qed.

(** [executePersistedQuery] never returns the GQL_ERROR pair. *)
Lemma persisted_error_codes (po : PersistedQueryOptions) (s : St W)
    (error : GraphQLError) (d : value) :
  fst (executePersistedQuery host po s) = inr (Some error, d) ->
  gql_code error = "INVALID_PERSISTED_QUERY" \/ gql_code error = "EXCEPTION".
Proof.
  unfold executePersistedQuery.
  destruct (missing (pq_operationName po) || missing (pq_sha256Hash po)).
  - intros [= <- _]. now left.
  - unfold try_catch.
    destruct (executePersistedQuery_try_cases po s) as [[e He]|[d' Hd]];
      destruct (executePersistedQuery_try host po s) as [res s'];
      simpl in He || simpl in Hd; subst res.
    + intros [= <- _]. now right.
    + discriminate.
Qed.

End GraphQLClaims.

Lemma query_raises_with_url_witness :
  exists baseUrl (status : Z) t,
    fst (getBaseUrl Runs.failing_host (mkSt tt [])) = inr baseUrl /\
    let url := baseUrl +:+ "/graphql" in
    let msg := "Request to " +:+ url +:+ " failed after 4 attempts: "
               +:+ "Request to " +:+ url +:+ " failed with status " +:+ pretty status in
    fst (query Runs.failing_host "{viewer{id}}" None (mkSt tt []))
      = inl (ScriptException "GraphQLError" msg) /\
    Js.includes msg url = true /\
    trace (snd (query Runs.failing_host "{viewer{id}}" None (mkSt tt []))) = [] ++ t /\
    count_http t = 4%nat /\
    Forall (fun c => call_url c = url) (http_calls t).
Proof.
  apply (query_raises_with_url Runs.failing_host "{viewer{id}}" None (mkSt tt [])).
  - discriminate.
  - intros c []. reflexivity.
Defined.

(** C4 on the code. The transport answers every call with status 200
    and the payload with two errors and data: [_fetch] throws an
    APIError at each of the four attempts and [getJson] yields [null],
    so [executePersistedQuery] returns the EXCEPTION pair with [null]
    data, and not the GQL_ERROR pair with the message and the data. *)
Theorem persisted_errors_payload_lost :
  let run := executePersistedQuery Runs.errors_host Runs.feed (mkSt tt []) in
  fst run = inr (Some (mkGraphQLError "EXCEPTION"
                         "Cannot read properties of null (reading 'data')"
                         None (Some "Feed")), VNull) /\
  count_http (trace (snd run)) = 4%nat /\
  errors_message (VArr [VObj [("message", VStr "A")]; VObj [("message", VStr "B")]])
    = inr "A, B".
Proof. vm_compute. repeat split. Qed.

Lemma graphql_result_invariant_witness :
  (exists error d,
      fst (executeQuery Runs.failing_host Cases.viewer (mkSt tt [])) = inr (error, d) /\
      is_Some error /\ d = VNull) /\
  (exists error d,
      fst (executePersistedQuery Cases.data_host Runs.feed (mkSt tt [])) = inr (error, d) /\
      error = None).
Proof.
  split.
  - destruct (graphql_result_invariant Runs.failing_host Cases.viewer Runs.feed
                (mkSt tt [])) as [(error & d & Hrun & _ & Hcase) _].
    exists error, d. split; [exact Hrun|exact Hcase].
  - destruct (graphql_result_invariant Cases.data_host Cases.viewer Runs.feed
                (mkSt tt [])) as [_ (error & d & Hrun & _ & Hcase)].
    exists error, d. split; [exact Hrun|exact Hcase].
Defined.

Lemma graphql_fail_fast_witness :
  executeQuery Runs.host Runs.no_query (Stub.start [])
    = (inr (Some (mkGraphQLError "INVALID_QUERY" "Query string is required" None None),
            VNull), Stub.start []) /\
  executePersistedQuery Runs.host Runs.no_hash (Stub.start [])
    = (inr (Some (mkGraphQLError "INVALID_PERSISTED_QUERY"
                    "operationName and sha256Hash are required" None None),
            VNull), Stub.start []).
Proof.
  destruct (graphql_fail_fast Runs.host Runs.no_query Runs.no_hash (Stub.start [])
              eq_refl (or_intror eq_refl)) as [[Hq _] [Hp _]].
  split; assumption.
Defined.

(** C7 fails on the code: a POST whose body is the number 0 sends the
    empty string, not the JSON text of 0. *)
Lemma body_encoded_when_present_counterexample :
  ~ body_encoded_when_present Runs.host.
Proof.
  intros Hclaim.
  specialize (Hclaim "https://x.test/a"
                (mkFetchOptions (Some "POST") None (VNum 0) None (Some 0) None None None
                   None)
                [] (HttpPOST "https://x.test/a" "" ∅ false) "").
  vm_compute in Hclaim.
  specialize (Hclaim (or_introl eq_refl) eq_refl). discriminate.
Qed.

Lemma fetch_body_serialized_witness :
  exists t,
    trace (snd (post Runs.agent_host "https://x.test/a"
                  (VObj [("id", VNum 7)]) no_options (Stub.start [])))
      = [] ++ t /\
    Forall (fun c => call_body c = Some ("{" +:+ Json.quote "id" +:+ ":7}"))
           (http_calls t).
Proof.
  apply (fetch_body_serialized Runs.agent_host "https://x.test/a"
           (with_data (VObj [("id", VNum 7)]) (with_method "POST" no_options))
           (Stub.start [])); discriminate.
Defined.

Lemma caller_headers_win_witness :
  effective_headers Runs.keyed_host (destructure Runs.caller_agent) !! "User-Agent"
    = Some "C" /\
  effective_headers Runs.keyed_host (destructure Runs.caller_agent) !! "X-Key"
    = Some "K" /\
  exists t,
    trace (snd (postJson Runs.keyed_host "https://x.test/a" VNull Runs.caller_agent
                  (Stub.start [])))
      = [] ++ t /\
    Forall (fun c => call_headers c !! "Content-Type" = Some "application/json")
           (http_calls t).
Proof.
  split; [|split].
  - exact (proj1 (caller_headers_win Runs.keyed_host "https://x.test/a"
                    Runs.caller_agent VNull (Stub.start []) "User-Agent")).
  - exact (proj1 (caller_headers_win Runs.keyed_host "https://x.test/a"
                    Runs.caller_agent VNull (Stub.start []) "X-Key")).
  - destruct (caller_headers_win Runs.keyed_host "https://x.test/a"
                Runs.caller_agent VNull (Stub.start []) "Content-Type")
      as (_ & _ & _ & _ & Hpost).
    exact Hpost.
Defined.

Lemma json_before_html_witness :
  exists t,
    trace (snd (_fetch Runs.agent_host "https://x.test/a" Runs.both_parsers (Stub.start [])))
      = [] ++ t /\
    dom_parses t = [] /\
    fst (_fetch Runs.agent_host "https://x.test/a" Runs.both_parsers (Stub.start []))
      = inr (VObj []).
Proof.
  destruct (json_before_html Runs.agent_host "https://x.test/a" Runs.both_parsers
              (Stub.start []) eq_refl eq_refl) as (t & Ht & Hd & _ & Hok).
  exists t. split; [exact Ht|]. split; [exact Hd|].
  apply (Hok (mkResponse true 200 Runs.json_text) (VObj []) VUndefined);
    try reflexivity.
  vm_compute. discriminate.
Defined.

Lemma persisted_null_is_exception_witness :
  fst (executePersistedQuery Runs.failing_host Runs.feed (mkSt tt []))
    = inr (Some (mkGraphQLError "EXCEPTION"
                   "Cannot read properties of null (reading 'data')"
                   None (Some "Feed")),
           VNull).
Proof.
  apply (persisted_null_is_exception Runs.failing_host Runs.feed (mkSt tt [])
           (mkSt tt []) "https://x.test"); reflexivity.
Defined.

(** * Further properties of the request executor *)

Section ExecutorMore.
Context {W : Type} (host : Host W).

(** X1. With [throwOnError: false] the executor and its wrappers do not
    throw: every failure comes back as a returned value. *)
Theorem quiet_requests_return (url : string) (d : value) (options : FetchOptions)
    (s : St W) :
  fo_throwOnError options = Some false ->
  is_inr (fst (_fetch host url options s)) = true /\
  is_inr (fst (get host url options s)) = true /\
  is_inr (fst (post host url d options s)) = true /\
  is_inr (fst (getJson host url options s)) = true /\
  is_inr (fst (postJson host url d options s)) = true /\
  is_inr (fst (getHtml host url options s)) = true.
Proof.
  intros HT.
  assert (Hquiet : forall u o, fo_throwOnError o = Some false ->
                               is_inr (fst (_fetch host u o s)) = true).
  { intros u o Ho. unfold _fetch.
    destruct (fetch_request_cases host u (destructure o) s) as (t & _ & _ & _ & _ & _ & Hr).
    apply Hr. simpl. now rewrite Ho. }
  repeat split; apply Hquiet; assumption.
Qed.

(** The calls of a run, as [fetch_request_cases] gives them. *)
Lemma fetch_repeats_one_call_aux (url : string) (options : FetchOptions) (s : St W) :
  exists t,
    trace (snd (_fetch host url options s)) = trace s ++ t /\
    http_calls t = replicate (count_http t) (dispatch host url (destructure options)) /\
    Z.of_nat (count_http t) <= Z.max 0 (retries (destructure options) + 1).
Proof.
  unfold _fetch.
  destruct (fetch_request_cases host url (destructure options) s)
    as (t & Hs & Hc & Hn & _).
  exists t. rewrite Hs. simpl. repeat split; assumption.
Qed.

(** X2. One request makes one and the same transport call again and
    again: every call of a run is the call of the first attempt (same
    entry point, URL, headers, body and [useAuth]), there are at most
    [retries + 1] of them (none when that is not positive), and the
    world afterwards is the world after that many calls. *)
Theorem fetch_repeats_one_call (url : string) (options : FetchOptions) (s : St W) :
  let r := destructure options in
  exists t,
    trace (snd (_fetch host url options s)) = trace s ++ t /\
    http_calls t = replicate (count_http t) (dispatch host url r) /\
    Z.of_nat (count_http t) <= Z.max 0 (retries r + 1) /\
    world (snd (_fetch host url options s)) = worlds host url r (world s) (count_http t).
Proof.
  intros r. unfold _fetch. fold r.
  destruct (fetch_request_cases host url r s) as (t & Hs & Hc & Hn & _).
  exists t. rewrite Hs. simpl. repeat split; assumption.
Qed.

(** The waits of a run, from its number of transport calls. *)
Lemma fetch_request_waits (url : string) (r : Request) (s : St W) :
  exists t,
    trace (snd (fetch_request host url r s)) = trace s ++ t /\
    waits t = retry_waits r (count_http t - 1).
Proof.
  unfold fetch_request.
  destruct (Z.ltb_spec 0 (retries r + 1)) as [Hpos|Hneg].
  - set (n := Z.to_nat (retries r + 1)).
    replace (retries r + 1) with (Z.of_nat n) in * by lia.
    destruct (first_or_none
                (fun i => is_inr (attempt_result host url r (worlds host url r (world s) i))) n)
      as [(k & Hk & Hp & Hlt)|Hnone].
    + destruct (attempt_result host url r (worlds host url r (world s) k)) as [e|v] eqn:Hv;
        [discriminate|].
      destruct (fetch_loop_returns host url r n k s None v Hk Hlt Hv)
        as (t & Hrun & Hc & Hw & _).
      rewrite Hrun. simpl. exists t. split; [reflexivity|].
      unfold count_http. rewrite Hc, length_replicate, Hw. simpl.
      now rewrite Nat.sub_0_r.
    + destruct (fetch_loop_exhausted host url r n s None Hnone)
        as (t & Hrun & Hc & Hw & _).
      rewrite Hrun. exists t.
      unfold count_http. rewrite Hc, length_replicate, Hw.
      destruct (throwOnError r); simpl; split; reflexivity.
  - rewrite fetch_loop_eq.
    replace (0 <? retries r + 1) with false by (symmetry; apply Z.ltb_ge; lia).
    exists []. rewrite app_nil_r.
    destruct (throwOnError r); simpl; split; try reflexivity.
    all: unfold retry_waits; now destruct (0 <? retryDelay r).
Qed.

(** X3. The executor waits between two attempts and nowhere else: a run
    with [k] transport calls has [k - 1] waits, each of [retryDelay]
    milliseconds, when [retryDelay] is positive, and no wait at all
    otherwise. There is no wait after the last attempt. *)
Theorem fetch_waits_between_attempts (url : string) (options : FetchOptions)
    (s : St W) :
  let r := destructure options in
  exists t,
    trace (snd (_fetch host url options s)) = trace s ++ t /\
    waits t = if 0 <? retryDelay r
              then replicate (count_http t - 1) (retryDelay r)
              else [].
Proof.
  intros r. unfold _fetch. fold r.
  destruct (fetch_request_waits url r s) as (t & Ht & Hw).
  exists t. split; [assumption|]. exact Hw.
Qed.

(** X4. When [retries + 1] is not positive the loop is not entered:
    the state is left as it was (no transport call), and the executor
    throws its NetworkError with the attempt count and Unknown error,
    or returns [null] when [throwOnError] is off. *)
Theorem fetch_without_attempts (url : string) (options : FetchOptions) (s : St W) :
  let r := destructure options in
  retries r + 1 <= 0 ->
  _fetch host url options s =
    (if throwOnError r
     then inl (ScriptException "NetworkError"
                 ("Request to " +:+ url +:+ " failed after " +:+ pretty (retries r + 1)
                  +:+ " attempts: Unknown error"))
     else inr VNull, s).
Proof.
  intros r Hneg. unfold _fetch, fetch_request. fold r.
  rewrite fetch_loop_eq.
  replace (0 <? retries r + 1) with false by (symmetry; apply Z.ltb_ge; lia).
  now destruct (throwOnError r).
Qed.

End ExecutorMore.

Section Wrappers.
Context {W : Type} (host : Host W).

Lemma serialize_body_data (options : FetchOptions) :
  serialize_body (data (destructure options)) = body_as_amended (fo_data options).
Proof. rewrite serialize_body_amended. simpl. now destruct (fo_data options). Qed.

(** X5. The method wrappers decide the transport entry point, whatever
    [method] the caller's options carry: every call of [get] is
    [http.GET], every call of [post] is [http.POST] with the body made
    from its [data] argument, and [put] and [del] go through
    [http.request] with the methods PUT and DELETE. *)
Theorem wrappers_force_method (url : string) (d : value) (options : FetchOptions)
    (s : St W) :
  (exists t, trace (snd (get host url options s)) = trace s ++ t /\
     Forall (fun c => exists h a, c = HttpGET url h a) (http_calls t)) /\
  (exists t, trace (snd (post host url d options s)) = trace s ++ t /\
     Forall (fun c => exists h a, c = HttpPOST url (body_as_amended d) h a)
            (http_calls t)) /\
  (exists t, trace (snd (put host url d options s)) = trace s ++ t /\
     Forall (fun c => exists h a, c = HttpRequest "PUT" url (body_as_amended d) h a)
            (http_calls t)) /\
  (exists t, trace (snd (del host url options s)) = trace s ++ t /\
     Forall (fun c => exists h a,
                c = HttpRequest "DELETE" url (body_as_amended (fo_data options)) h a)
            (http_calls t)).
Proof.
  repeat split.
  - unfold get. destruct (fetch_calls host url (with_method "GET" options) s)
      as (t & Ht & Hc & _).
    exists t. split; [assumption|].
    eapply Forall_impl; [exact Hc|]. intros c ->. eexists _, _. reflexivity.
  - unfold post.
    destruct (fetch_calls host url (with_data d (with_method "POST" options)) s)
      as (t & Ht & Hc & _).
    exists t. split; [assumption|].
    eapply Forall_impl; [exact Hc|]. intros c ->. eexists _, _.
    unfold dispatch. rewrite serialize_body_data. reflexivity.
  - unfold put.
    destruct (fetch_calls host url (with_data d (with_method "PUT" options)) s)
      as (t & Ht & Hc & _).
    exists t. split; [assumption|].
    eapply Forall_impl; [exact Hc|]. intros c ->. eexists _, _.
    unfold dispatch. rewrite serialize_body_data. reflexivity.
  - unfold del.
    destruct (fetch_calls host url (with_method "DELETE" options) s)
      as (t & Ht & Hc & _).
    exists t. split; [assumption|].
    eapply Forall_impl; [exact Hc|]. intros c ->. eexists _, _.
    unfold dispatch. rewrite serialize_body_data. reflexivity.
Qed.

(** Two requests with the same attempts and the same delay run the
    same loop. *)
Lemma fetch_loop_ext (url : string) (r r' : Request) :
  (forall s, attempt host url r s = attempt host url r' s) ->
  retryDelay r = retryDelay r' ->
  forall (n : nat) (a : Z) (le : option exn) (s : St W),
    Z.to_nat a = n ->
    fetch_loop host url r a le s = fetch_loop host url r' a le s.
Proof.
  intros Hatt Hdelay n. induction n as [|n IH]; intros a le s Ha.
  - rewrite !fetch_loop_eq.
    replace (0 <? a) with false by (symmetry; apply Z.ltb_ge; lia). reflexivity.
  - rewrite (fetch_loop_eq host url r), (fetch_loop_eq host url r'), Hatt.
    destruct (0 <? a); [|reflexivity].
    destruct (attempt host url r' s) as [[e|v] s1]; [|reflexivity].
    unfold retry_wait. rewrite Hdelay. apply IH. lia.
Qed.

(** X6. The method is matched without regard to case: two option sets
    that differ only in the spelling of the method, with the same
    uppercase form, run the same request with the same result. *)
Theorem method_case_insensitive (url : string) (options : FetchOptions)
    (m m' : string) (s : St W) :
  Js.toUpperCase m = Js.toUpperCase m' ->
  _fetch host url (with_method m options) s = _fetch host url (with_method m' options) s.
Proof.
  intros Hm. unfold _fetch, fetch_request.
  set (r := destructure (with_method m options)).
  set (r' := destructure (with_method m' options)).
  assert (Hd : dispatch host url r = dispatch host url r').
  { unfold dispatch. subst r r'. simpl. now rewrite Hm. }
  assert (Hatt : forall s0, attempt host url r s0 = attempt host url r' s0).
  { intros s0. unfold attempt. now rewrite Hd. }
  rewrite (fetch_loop_ext url r r' Hatt eq_refl _ _ _ _ eq_refl).
  reflexivity.
Qed.

(** X7. With neither [parseJson] nor [parseHtml], an OK first response
    is returned as it is (success flag, status and raw body) after one
    transport call; the body is not parsed. *)
Theorem fetch_raw_response (url : string) (options : FetchOptions) (s : St W)
    (response : Response) :
  let r := destructure options in
  parseJson r = false ->
  parseHtml r = false ->
  0 <= retries r ->
  fst (http host (dispatch host url r) (world s)) = inr response ->
  isOk response = true ->
  _fetch host url options s =
    (inr (response_value response),
     mkSt (snd (http host (dispatch host url r) (world s)))
          (trace s ++ [EvHttp (dispatch host url r)])).
Proof.
  intros r HJ HH Hretries Hresp Hok.
  unfold _fetch, fetch_request. fold r. rewrite fetch_loop_eq.
  replace (0 <? retries r + 1) with true by (symmetry; apply Z.ltb_lt; lia).
  unfold attempt, bind, http_do.
  destruct (http host (dispatch host url r) (world s)) as [o w']. simpl in Hresp. subst o.
  unfold handle_response. rewrite Hok, HJ, HH. reflexivity.
Qed.

End Wrappers.

Section Parsing.
Context {W : Type} (host : Host W) (url : string) (r : Request).

(** An attempt hands the DOM parser nothing but the body of its own OK
    response, and only when [parseJson] is off and [parseHtml] is on. *)
Lemma attempt_events_dom_ok (w : W) (text : string) :
  In text (dom_parses (attempt_events host url r w)) ->
  parseJson r = false /\ parseHtml r = true /\
  exists response,
    fst (http host (dispatch host url r) w) = inr response /\
    isOk response = true /\ body response = text.
Proof.
  unfold attempt_events, attempt, bind, http_do; simpl.
  destruct (http host (dispatch host url r) w) as [[e|response] w']; simpl;
    [intros []|].
  unfold handle_response, domParser_parse, bind, lift, ret, throw, emit.
  destruct (isOk response) eqn:Hok; simpl.
  - destruct (parseJson r) eqn:HJ; simpl.
    + destruct (JSON_parse host (body response)) as [e|j]; simpl; [intros []|].
      destruct (Js.get_prop j "errors") as [e|errs]; simpl; [intros []|].
      destruct (Js.truthy errs); intros [].
    + destruct (parseHtml r) eqn:HH; simpl; [|intros []].
      destruct (domParser_parseFromString host (body response) "text/html");
        simpl; (intros [<-|[]]; repeat split; eauto).
  - destruct (throwOnError r); intros [].
Qed.

(** Whatever the loop hands the DOM parser, one of its attempts did. *)
Lemma fetch_loop_dom (n : nat) : forall (a : Z) (le : option exn) (s : St W),
  Z.to_nat a = n ->
  exists t,
    trace (snd (fetch_loop host url r a le s)) = trace s ++ t /\
    forall text, In text (dom_parses t) ->
      exists i, In text (dom_parses (attempt_events host url r
                                       (worlds host url r (world s) i))).
Proof.
  induction n as [|n IH]; intros a le s Ha; rewrite fetch_loop_eq.
  - replace (0 <? a) with false by (symmetry; apply Z.ltb_ge; lia).
    exists []. simpl. rewrite app_nil_r. split; [reflexivity|intros text []].
  - destruct (0 <? a) eqn:Hpos.
    2:{ exists []. simpl. rewrite app_nil_r. split; [reflexivity|intros text []]. }
    rewrite attempt_run.
    destruct (attempt_result host url r (world s)) as [e|v].
    + set (s1 := retry_wait r (a - 1) _).
      destruct (IH (a - 1) (Some e) s1 ltac:(lia)) as (t & Ht & Hdom).
      subst s1. rewrite retry_wait_world, retry_wait_trace in *. simpl in *.
      exists (attempt_events host url r (world s)
              ++ (if 0 <? a - 1 then wait_events r 1 else []) ++ t).
      split; [rewrite Ht; now rewrite <- !app_assoc|].
      intros text. rewrite !dom_parses_app, !in_app_iff.
      intros [Hin|[Hin|Hin]].
      * exists 0%nat. exact Hin.
      * destruct (0 <? a - 1); [rewrite wait_events_dom in Hin|]; destruct Hin.
      * destruct (Hdom text Hin) as [i Hi]. exists (S i).
        now rewrite <- worlds_next.
    + exists (attempt_events host url r (world s)). simpl. split; [reflexivity|].
      intros text Hin. exists 0%nat. exact Hin.
Qed.

End Parsing.

Section ParsingClaims.
Context {W : Type} (host : Host W).

(** X8. The DOM parser is only ever handed the body of an OK response
    of this run, and only by a request with [parseHtml] on and
    [parseJson] off: the body of an error response is never parsed. *)
Theorem dom_parser_gets_ok_bodies (url : string) (options : FetchOptions) (s : St W) :
  let r := destructure options in
  exists t,
    trace (snd (_fetch host url options s)) = trace s ++ t /\
    forall text, In text (dom_parses t) ->
      parseJson r = false /\ parseHtml r = true /\
      exists i response,
        outcome host url r (world s) i = inr response /\
        isOk response = true /\ body response = text.
Proof.
  intros r. unfold _fetch, fetch_request. fold r.
  destruct (fetch_loop_dom host url r _ (retries r + 1) None s eq_refl)
    as (t & Ht & Hdom).
  exists t. split.
  - destruct (fetch_loop host url r (retries r + 1) None s) as [[v|le] s'];
      [exact Ht|]. now destruct (throwOnError r).
  - intros text Hin. destruct (Hdom text Hin) as [i Hi].
    destruct (attempt_events_dom_ok host url r _ text Hi)
      as (HJ & HH & response & Ho & Hok & Hb).
    repeat split; auto. exists i, response. auto.
Qed.

(** X9. An HTML request whose first response is OK returns the
    document the DOM parser makes of its body, after one transport
    call and one call of the parser with the MIME type text/html. *)
Theorem fetch_html_document (url : string) (options : FetchOptions) (s : St W)
    (response : Response) (document : value) :
  let r := destructure options in
  parseJson r = false ->
  parseHtml r = true ->
  0 <= retries r ->
  fst (http host (dispatch host url r) (world s)) = inr response ->
  isOk response = true ->
  domParser_parseFromString host (body response) "text/html" = inr document ->
  _fetch host url options s =
    (inr document,
     mkSt (snd (http host (dispatch host url r) (world s)))
          (trace s ++ [EvHttp (dispatch host url r);
                       EvDomParse (body response) "text/html"])).
Proof.
  intros r HJ HH Hretries Hresp Hok Hdoc.
  unfold _fetch, fetch_request. fold r. rewrite fetch_loop_eq.
  replace (0 <? retries r + 1) with true by (symmetry; apply Z.ltb_lt; lia).
  unfold attempt, bind, http_do.
  destruct (http host (dispatch host url r) (world s)) as [o w']. simpl in Hresp. subst o.
  unfold handle_response, domParser_parse, bind, emit, lift.
  rewrite Hok, HJ, HH, Hdoc. simpl. now rewrite <- app_assoc.
Qed.

End ParsingClaims.

(** ** Decimal and JSON texts are not empty *)

Lemma pretty_N_go_nonempty (x : N) (s : string) : s <> "" -> pretty_N_go x s <> "".
Proof.
  revert s. induction (N.lt_wf_0 x) as [x _ IH]; intros s Hs.
  assert (x = 0 \/ 0 < x)%N as [->|Hpos] by lia.
  - now rewrite pretty_N_go_0.
  - rewrite pretty_N_go_step by assumption. apply IH.
    + now apply N.div_lt.
    + discriminate.
Qed.

Lemma pretty_Z_nonempty (z : Z) : pretty z <> "".
Proof.
  assert (Hpos : forall p : positive, pretty p <> "").
  { intros p. unfold pretty, pretty_positive, pretty, pretty_N.
    destruct (decide (N.pos p = 0%N)) as [|_]; [discriminate|].
    rewrite pretty_N_go_step by reflexivity.
    apply pretty_N_go_nonempty. discriminate. }
  destruct z as [|p|p]; unfold pretty, pretty_Z; [discriminate|apply Hpos|].
  change ("-" +:+ pretty p) with (String "-" (pretty p)). discriminate.
Qed.

(** The JSON text of a truthy value is not the empty string. *)
Lemma stringify_str_truthy (v : value) :
  Js.truthy v = true -> Json.stringify_str v <> "".
Proof.
  destruct v as [| |[]|n| |text|xs|fields|h]; simpl; try discriminate.
  intros _. unfold Json.stringify_str. simpl. apply pretty_Z_nonempty.
Qed.

Section ApiErrors.
Context {W : Type} (host : Host W).

(** A JSON attempt whose OK response carries truthy [errors] throws
    them, serialized, as an APIError. *)
Lemma attempt_result_api_error (url : string) (r : Request) (w : W)
    (response : Response) (payload errors : value) :
  parseJson r = true ->
  fst (http host (dispatch host url r) w) = inr response ->
  isOk response = true ->
  JSON_parse host (body response) = inr payload ->
  Js.get_prop payload "errors" = inr errors ->
  Js.truthy errors = true ->
  attempt_result host url r w
    = inl (ScriptException "APIError" (Json.stringify_str errors)).
Proof.
  intros HJ Hh Hok Hparse Hp Ht.
  unfold attempt_result, attempt, bind, http_do; simpl.
  destruct (http host (dispatch host url r) w) as [o w']; simpl in *; subst o.
  unfold handle_response, bind, lift, throw. rewrite Hok, HJ. simpl.
  now rewrite Hparse, Hp, Ht.
Qed.

(** X10. A payload with truthy [errors] is a failed attempt like any
    other: when every one of the [retries + 1] OK responses of a JSON
    request carries such [errors], the executor makes all its attempts
    and then throws a NetworkError whose message ends with the JSON
    text of the [errors] of the last response. *)
Theorem fetch_reports_api_errors (n : nat) (url : string) (options : FetchOptions)
    (s : St W) :
  let r := destructure options in
  throwOnError r = true ->
  parseJson r = true ->
  retries r = Z.of_nat n ->
  (forall i, (i < n + 1)%nat ->
     exists response payload errors,
       outcome host url r (world s) i = inr response /\
       isOk response = true /\
       JSON_parse host (body response) = inr payload /\
       Js.get_prop payload "errors" = inr errors /\
       Js.truthy errors = true) ->
  exists t response payload errors,
    outcome host url r (world s) n = inr response /\
    JSON_parse host (body response) = inr payload /\
    Js.get_prop payload "errors" = inr errors /\
    fst (_fetch host url options s)
      = inl (ScriptException "NetworkError"
               ("Request to " +:+ url +:+ " failed after " +:+ pretty (Z.of_nat n + 1)
                +:+ " attempts: " +:+ Json.stringify_str errors)) /\
    trace (snd (_fetch host url options s)) = trace s ++ t /\
    count_http t = (n + 1)%nat.
Proof.
  intros r HT HJ Hn Hall.
  assert (Hthrown : forall i, (i < n + 1)%nat ->
            exists response payload errors,
              outcome host url r (world s) i = inr response /\
              JSON_parse host (body response) = inr payload /\
              Js.get_prop payload "errors" = inr errors /\
              Js.truthy errors = true /\
              attempt_result host url r (worlds host url r (world s) i)
                = inl (ScriptException "APIError" (Json.stringify_str errors))).
  { intros i Hi.
    destruct (Hall i Hi) as (response & payload & errors & Ho & Hok & Hp & He & Ht).
    exists response, payload, errors. repeat split; auto.
    eapply attempt_result_api_error; eauto. }
  unfold _fetch, fetch_request. fold r. rewrite Hn.
  replace (Z.of_nat n + 1) with (Z.of_nat (S n)) by lia.
  destruct (fetch_loop_exhausted host url r (S n) s None) as (t & Hrun & Hc & _).
  { intros i Hi. destruct (Hthrown i ltac:(lia)) as (? & ? & ? & _ & _ & _ & _ & ->).
    reflexivity. }
  rewrite Hrun, HT.
  destruct (Hthrown n ltac:(lia)) as (response & payload & errors & Ho & Hp & He & Ht & Hres).
  exists t, response, payload, errors.
  repeat split; auto.
  - simpl. rewrite Hres. unfold exhausted_error, last_message. rewrite Hn. simpl.
    destruct (String.eqb_spec (Json.stringify_str errors) "") as [Hempty|_];
      [now apply stringify_str_truthy in Ht|].
    now replace (Z.of_nat n + 1) with (Z.of_nat (S n)) by lia.
  - unfold count_http. rewrite Hc, length_replicate. lia.
Qed.

End ApiErrors.

(** * Further properties of the GraphQL layer *)

Section GraphQLMore.
Context {W : Type} (host : Host W).

(** [fetchGraphQL] leaves the state the executor leaves. *)
Lemma fetchGraphQL_state (endpoint query : string) (variables : list (string * value))
    (options : FetchOptions) (s : St W) :
  snd (fetchGraphQL host endpoint query variables options s)
    = snd (_fetch host endpoint (graphql_options query variables options) s).
Proof.
  unfold fetchGraphQL, bind. fold (graphql_options query variables options).
  destruct (_fetch host endpoint _ s) as [[e|v] s1]; [reflexivity|].
  destruct (Js.truthy v); [|reflexivity].
  unfold lift. destruct (Js.get_prop v "data") as [e|d]; [reflexivity|].
  now destruct (Js.truthy d).
Qed.

(** What [fetchGraphQL] makes of a payload with no truthy [errors],
    and the one transport call it takes. *)
Lemma fetchGraphQL_run (endpoint query : string)
    (variables : list (string * value)) (options : FetchOptions) (s : St W)
    (response : Response) (payload errors d : value) :
  0 <= default 3 (fo_retries options) ->
  (forall c, fst (http host c (world s)) = inr response) ->
  isOk response = true ->
  JSON_parse host (body response) = inr payload ->
  Js.get_prop payload "errors" = inr errors ->
  Js.truthy errors = false ->
  Js.get_prop payload "data" = inr d ->
  exists s',
    fetchGraphQL host endpoint query variables options s
      = (inr (if Js.truthy d then d else payload), s') /\
    count_http (trace s') = S (count_http (trace s)).
Proof.
  intros Hretries Hresp Hok Hparse Hp Ht Hd.
  unfold fetchGraphQL, bind. fold (graphql_options query variables options).
  unfold _fetch, fetch_request.
  set (r := destructure (graphql_options query variables options)).
  replace (retries r + 1) with (Z.of_nat (S (Z.to_nat (retries r))))
    by (subst r; simpl; lia).
  destruct (fetch_loop_returns host endpoint r (S (Z.to_nat (retries r))) 0 s None payload)
    as (t & -> & Hc & _); [lia|intros i Hi; lia| |].
  { simpl. eapply attempt_result_parsed; eauto. }
  assert (Hcount : count_http (trace s ++ t) = S (count_http (trace s))).
  { unfold count_http. rewrite http_calls_app, Hc, length_app. simpl. lia. }
  unfold lift, ret. rewrite Hd.
  destruct (Js.truthy payload) eqn:Hpayload.
  - destruct (Js.truthy d); eexists; split; try reflexivity; exact Hcount.
  - destruct (Js.truthy d) eqn:Hdata; [|eexists; split; [reflexivity|exact Hcount]].
    destruct payload; try discriminate; simpl in Hd; injection Hd as <-; discriminate.
Qed.

(** X11. [fetchGraphQL] unwraps the payload: when the first response
    is OK and parses to a payload with no truthy [errors], the result
    is the [data] of the payload when that is truthy, and otherwise
    the whole payload (so also when [data] is [null]); the transport
    is called once. *)
Theorem fetchGraphQL_unwraps_data (endpoint query : string)
    (variables : list (string * value)) (options : FetchOptions) (s : St W)
    (response : Response) (payload errors d : value) :
  0 <= default 3 (fo_retries options) ->
  (forall c, fst (http host c (world s)) = inr response) ->
  isOk response = true ->
  JSON_parse host (body response) = inr payload ->
  Js.get_prop payload "errors" = inr errors ->
  Js.truthy errors = false ->
  Js.get_prop payload "data" = inr d ->
  fst (fetchGraphQL host endpoint query variables options s)
    = inr (if Js.truthy d then d else payload) /\
  count_http (trace (snd (fetchGraphQL host endpoint query variables options s)))
    = S (count_http (trace s)).
Proof.
  intros Hretries Hresp Hok Hparse Hp Ht Hd.
  destruct (fetchGraphQL_run endpoint query variables options s response payload
              errors d Hretries Hresp Hok Hparse Hp Ht Hd) as (s' & Hrun & Hcount).
  rewrite Hrun. split; [reflexivity|exact Hcount].
Qed.

(** X12. A standard query with a query string only ever POSTs: every
    transport call of [executeQuery] goes to the endpoint when it
    starts with http, and to the base URL followed by the endpoint
    otherwise, [/graphql] by default; its body is the JSON text of
    [{query, variables}], its headers are the defaults, Content-Type
    application/json and the caller's headers, later ones winning;
    there are at most [retries + 1] calls. *)
Theorem executeQuery_posts (go : GraphQLOptions) (s : St W) :
  missing (go_query go) = false ->
  exists baseUrl t,
    fst (getBaseUrl host s) = inr baseUrl /\
    trace (snd (executeQuery host go s)) = trace s ++ t /\
    http_calls t = replicate (count_http t) (graphql_call host go baseUrl) /\
    Z.of_nat (count_http t) <= Z.max 0 (default 3 (go_retries go) + 1).
Proof.
  intros Hq.
  destruct (getBaseUrl_run host s) as (baseUrl & t0 & Hbase & Hc0 & _).
  exists baseUrl.
  unfold executeQuery. rewrite Hq.
  assert (Hstate : snd (try_catch (executeQuery_try host go) executeQuery_catch s)
                   = snd (executeQuery_try host go s)).
  { unfold try_catch. destruct (executeQuery_try host go s) as [[e|res] s'];
      [|reflexivity].
    destruct (executeQuery_catch_run e s') as [c ->]. reflexivity. }
  rewrite Hstate.
  assert (Htry : snd (executeQuery_try host go s)
                 = snd (fetchGraphQL host
                          (call_url (graphql_call host go baseUrl))
                          (default "" (go_query go)) (default [] (go_variables go))
                          (mkFetchOptions None (Some (default ∅ (go_headers go))) VUndefined
                             (Some (default false (go_useAuth go)))
                             (Some (default 3 (go_retries go))) None None None None)
                          (mkSt (world s) (trace s ++ t0)))).
  { unfold executeQuery_try, bind. rewrite Hbase.
    destruct (fetchGraphQL host _ _ _ _ _) as [[e|v] s']; reflexivity. }
  rewrite Htry, fetchGraphQL_state.
  match goal with
  | |- context [_fetch host ?u ?o ?s1] =>
      destruct (fetch_repeats_one_call_aux host u o s1) as (t & Ht & Hc & Hn)
  end.
  exists (t0 ++ t). split; [now rewrite Hbase|].
  rewrite Ht. simpl. split; [now rewrite app_assoc|].
  unfold count_http. rewrite http_calls_app, Hc0. simpl. split; [exact Hc|exact Hn].
Qed.

End GraphQLMore.

Section GraphQLResults.
Context {W : Type} (host : Host W).

(** [executeQuery] returns a pair: nothing is thrown to the caller. *)
Lemma executeQuery_returns (go : GraphQLOptions) (s : St W) :
  exists res, fst (executeQuery host go s) = inr res.
Proof.
  unfold executeQuery. destruct (missing (go_query go)); [eexists; reflexivity|].
  unfold try_catch. destruct (executeQuery_try host go s) as [[e|res] s'].
  - destruct (executeQuery_catch_run e s') as [c ->]. eexists. reflexivity.
  - eexists. reflexivity.
Qed.

Lemma executePersistedQuery_returns (po : PersistedQueryOptions) (s : St W) :
  exists res, fst (executePersistedQuery host po s) = inr res.
Proof.
  unfold executePersistedQuery.
  destruct (missing (pq_operationName po) || missing (pq_sha256Hash po));
    [eexists; reflexivity|].
  unfold try_catch. destruct (executePersistedQuery_try host po s) as [[e|res] s'];
    eexists; reflexivity.
Qed.

(** X13. A standard query that gets an OK response whose payload has
    no truthy [errors] returns a [null] error, with the [data] of the
    payload when that is truthy and with the whole payload otherwise. *)
Theorem executeQuery_success (go : GraphQLOptions) (s : St W)
    (response : Response) (payload errors d : value) :
  missing (go_query go) = false ->
  0 <= default 3 (go_retries go) ->
  (forall c, fst (http host c (world s)) = inr response) ->
  isOk response = true ->
  JSON_parse host (body response) = inr payload ->
  Js.get_prop payload "errors" = inr errors ->
  Js.truthy errors = false ->
  Js.get_prop payload "data" = inr d ->
  fst (executeQuery host go s) = inr (None, if Js.truthy d then d else payload).
Proof.
  intros Hq Hretries Hresp Hok Hparse Hp Ht Hd.
  destruct (getBaseUrl_run host s) as (baseUrl & t0 & Hbase & _).
  unfold executeQuery. rewrite Hq.
  unfold try_catch, executeQuery_try, bind. rewrite Hbase.
  match goal with
  | |- context [fetchGraphQL host ?u ?q ?v ?o ?s1] =>
      destruct (fetchGraphQL_run host u q v o s1 response payload errors d
                  Hretries Hresp Hok Hparse Hp Ht Hd) as (s' & Hrun & _)
  end.
  rewrite Hrun. reflexivity.
Qed.

(** X14. A persisted query that gets an OK response whose payload has
    no truthy [errors] returns a [null] error and the [data] field of
    the payload as it is: [undefined] when the payload has none. *)
Theorem executePersistedQuery_success (po : PersistedQueryOptions) (s : St W)
    (response : Response) (payload errors d : value) :
  missing (pq_operationName po) = false ->
  missing (pq_sha256Hash po) = false ->
  0 <= default 3 (pq_retries po) ->
  (forall c, fst (http host c (world s)) = inr response) ->
  isOk response = true ->
  JSON_parse host (body response) = inr payload ->
  Js.get_prop payload "errors" = inr errors ->
  Js.truthy errors = false ->
  Js.get_prop payload "data" = inr d ->
  fst (executePersistedQuery host po s) = inr (None, d).
Proof.
  intros Hop Hhash Hretries Hresp Hok Hparse Hp Ht Hd.
  destruct (getBaseUrl_run host s) as (baseUrl & t0 & Hbase & _).
  unfold executePersistedQuery. rewrite Hop, Hhash.
  change (false || false) with false. cbv beta iota.
  unfold try_catch, executePersistedQuery_try, bind. rewrite Hbase.
  unfold getJson, fetchJson, _fetch, fetch_request.
  match goal with
  | |- context [fetch_loop host ?u ?r ?a None ?s1] =>
      replace a with (Z.of_nat (S (Z.to_nat (default 3 (pq_retries po)))))
        by (simpl; lia);
      destruct (fetch_loop_returns host u r (S (Z.to_nat (default 3 (pq_retries po))))
                  0 s1 None payload) as (t & -> & _);
        [lia|intros i Hi; lia| |]
  end.
  { simpl. eapply attempt_result_parsed; eauto. }
  unfold lift, ret.
  destruct (Js.truthy payload) eqn:Hpayload.
  - rewrite Hp. cbv beta iota. rewrite Ht, Hd. reflexivity.
  - cbv beta iota. rewrite Hpayload, Hd. reflexivity.
Qed.

(** X15. The raising forms throw nothing but a GraphQLError: whatever
    [query] or [persistedQuery] throws is a [ScriptException] of type
    GraphQLError with the message of the error of the tuple form, and
    whatever they return is the data of a tuple with a [null] error. *)
Theorem raising_forms_outcomes (queryString operationName sha256Hash : string)
    (variables : option (list (string * value))) (s : St W) :
  let go := mkGraphQLOptions (Some queryString) variables None None None None in
  let po := mkPersistedQueryOptions (Some operationName) (Some sha256Hash) None
              variables None None None in
  match fst (query host queryString variables s) with
  | inl e => exists error d, fst (executeQuery host go s) = inr (Some error, d) /\
                             e = ScriptException "GraphQLError" (gql_message error)
  | inr v => fst (executeQuery host go s) = inr (None, v)
  end /\
  match fst (persistedQuery host operationName sha256Hash variables s) with
  | inl e => exists error d, fst (executePersistedQuery host po s) = inr (Some error, d) /\
                             e = ScriptException "GraphQLError" (gql_message error)
  | inr v => fst (executePersistedQuery host po s) = inr (None, v)
  end.
Proof.
  intros go po. split.
  - unfold query, bind. fold go.
    destruct (executeQuery_returns go s) as [[error d] Hres].
    destruct (executeQuery host go s) as [res s']. simpl in Hres. subst res.
    destruct error as [error|]; simpl; eauto.
  - unfold persistedQuery, bind. fold po.
    destruct (executePersistedQuery_returns po s) as [[error d] Hres].
    destruct (executePersistedQuery host po s) as [res s']. simpl in Hres. subst res.
    destruct error as [error|]; simpl; eauto.
Qed.

(** [executePersistedQuery]'s [try] leaves the state [getJson] leaves. *)
Lemma executePersistedQuery_try_state (po : PersistedQueryOptions) (s s1 : St W)
    (baseUrl : string) :
  getBaseUrl host s = (inr baseUrl, s1) ->
  snd (executePersistedQuery_try host po s)
    = snd (getJson host (persisted_url baseUrl po) (persisted_request po) s1).
Proof.
  intros Hbase. unfold executePersistedQuery_try, bind. rewrite Hbase.
  destruct (getJson host _ _ s1) as [[e|v] s2]; [reflexivity|].
  unfold lift, ret. simpl.
  repeat (match goal with
          | |- context [if ?b then _ else _] => destruct b
          | |- context [match ?x with inl _ => _ | inr _ => _ end] => destruct x
          end; simpl); reflexivity.
Qed.

(** X16. A persisted query with its two names only ever GETs: every
    transport call of [executePersistedQuery] is a GET of the base URL
    followed by [?] and the query parameters, with the defaults,
    Accept application/json and the caller's headers, later ones
    winning; there are at most [retries + 1] calls. *)
Theorem executePersistedQuery_gets (po : PersistedQueryOptions) (s : St W) :
  missing (pq_operationName po) = false ->
  missing (pq_sha256Hash po) = false ->
  exists baseUrl t,
    fst (getBaseUrl host s) = inr baseUrl /\
    trace (snd (executePersistedQuery host po s)) = trace s ++ t /\
    http_calls t = replicate (count_http t) (persisted_call host po baseUrl) /\
    Z.of_nat (count_http t) <= Z.max 0 (default 3 (pq_retries po) + 1).
Proof.
  intros Hop Hhash.
  destruct (getBaseUrl_run host s) as (baseUrl & t0 & Hbase & Hc0 & _).
  exists baseUrl.
  unfold executePersistedQuery. rewrite Hop, Hhash.
  change (false || false) with false. cbv beta iota.
  assert (Hstate : snd (try_catch (executePersistedQuery_try host po)
                          (executePersistedQuery_catch po) s)
                   = snd (executePersistedQuery_try host po s)).
  { unfold try_catch. destruct (executePersistedQuery_try host po s) as [[e|res] s'];
      reflexivity. }
  rewrite Hstate, (executePersistedQuery_try_state po s _ baseUrl Hbase).
  unfold getJson, fetchJson.
  match goal with
  | |- context [_fetch host ?u ?o ?s1] =>
      destruct (fetch_repeats_one_call_aux host u o s1) as (t & Ht & Hc & Hn)
  end.
  exists (t0 ++ t). split; [now rewrite Hbase|].
  rewrite Ht. simpl. split; [now rewrite app_assoc|].
  unfold count_http. rewrite http_calls_app, Hc0. simpl. split; [exact Hc|exact Hn].
Qed.

End GraphQLResults.

(** * Properties of the base URL and of the API client *)

Section BaseUrl.
Context {W : Type} (host : Host W).

(** X17. With a configuration whose [baseUrl] setting offers URLs,
    [getBaseUrl] answers, without logging, the user's selection from
    [plugin.settings] when it is set and not empty, the first offered
    URL when it is set and empty, and otherwise the default of the
    setting when it has a non-empty one, and the first offered URL when
    it has not. The selection is not checked against the offered
    URLs. *)
Theorem getBaseUrl_selection (cfg : PluginConfig) (setting : PluginSetting)
    (first : string) (others : list string) (s : St W) :
  plugin_config (plugin host) = Some cfg ->
  find_setting (Some cfg) "baseUrl" = Some setting ->
  setting_options setting = Some (first :: others) ->
  getBaseUrl host s =
    (inr (match plugin_settings (plugin host) !! "baseUrl" with
          | Some selected => if String.eqb selected "" then first else selected
          | None =>
              match setting_default setting with
              | Some preset => if String.eqb preset "" then first else preset
              | None => first
              end
          end), s).
Proof.
  intros Hcfg Hfind Hopts.
  unfold getBaseUrl. rewrite Hcfg, Hfind. simpl. rewrite Hopts. simpl.
  unfold ret, getPluginSetting. rewrite Hcfg, Hfind. simpl.
  destruct (plugin_settings (plugin host) !! "baseUrl") as [selected|]; simpl.
  - reflexivity.
  - destruct (setting_default setting) as [preset|]; simpl.
    + destruct (String.eqb preset "") eqn:Hp; simpl.
      * destruct (String.eqb first "") eqn:Hf; simpl; rewrite ?Hf; reflexivity.
      * now rewrite Hp.
    + destruct (String.eqb first "") eqn:Hf; simpl; rewrite ?Hf; reflexivity.
Qed.

(** X18. With no configuration, no [baseUrl] setting or no offered
    URL, [getBaseUrl] answers the empty string and logs one warning;
    the transport is not called. *)
Theorem getBaseUrl_unconfigured (s : St W) :
  (plugin_config (plugin host) = None \/
   default [] (find_setting (plugin_config (plugin host)) "baseUrl" ≫= setting_options)
     = []) ->
  exists warning,
    getBaseUrl host s = (inr "", mkSt (world s) (trace s ++ [EvLog warning])).
Proof.
  intros Hcase. unfold getBaseUrl, log, emit, bind, ret.
  destruct (plugin_config (plugin host)) as [cfg|].
  - destruct Hcase as [Hnone|Hempty]; [discriminate|].
    rewrite Hempty. eexists. reflexivity.
  - eexists. reflexivity.
Qed.

(** X19. The default headers of the executor are the headers
    [getDefaultHeaders] answers: every transport call of a request
    carries the caller's headers over those. *)
Theorem fetch_uses_default_headers (url : string) (options : FetchOptions) (s : St W) :
  exists t,
    trace (snd (_fetch host url options s)) = trace s ++ t /\
    Forall (fun c => call_headers c
                     = spread (getDefaultHeaders host) (default ∅ (fo_headers options)))
           (http_calls t).
Proof.
  destruct (fetch_calls host url options s) as (t & Ht & Hc & _).
  exists t. split; [assumption|].
  eapply Forall_impl; [exact Hc|]. intros c ->.
  assert (Hh : call_headers (dispatch host url (destructure options))
               = effective_headers host (destructure options)).
  { unfold dispatch. now repeat destruct (String.eqb _ _). }
  rewrite Hh. unfold effective_headers, plugin_defaultHeaders, getDefaultHeaders.
  destruct (plugin_config (plugin host)) as [cfg|]; [|reflexivity].
  now destruct (config_constants cfg).
Qed.

End BaseUrl.

Lemma endsWith_eq (s suffix : string) :
  Str.endsWith s suffix =
    if String.eqb s suffix then true
    else match s with
         | EmptyString => false
         | String _ rest => Str.endsWith rest suffix
         end.
Proof. destruct s; reflexivity. Qed.

Lemma endsWith_slash_app (b : string) : Str.endsWith (b +:+ "/") "/" = true.
Proof.
  induction b as [|c b IH]; [reflexivity|].
  change (String c b +:+ "/") with (String c (b +:+ "/")).
  rewrite endsWith_eq, IH. now destruct (String.eqb _ _).
Qed.

Lemma slice_init_slash_app (b : string) : Str.slice_init (b +:+ "/") = b.
Proof.
  induction b as [|c b IH]; [reflexivity|].
  change (String c b +:+ "/") with (String c (b +:+ "/")).
  simpl. rewrite IH. destruct b; reflexivity.
Qed.

Section ClientClaims.
Context {W : Type} (host : Host W).

(** X20. The client joins the base URL and the endpoint with one
    slash: for a base [b] that does not end with a slash and an
    endpoint [e] that does not start with one, the four spellings
    ([b] or [b/], [e] or [/e]) all resolve to [b/e]. *)
Theorem getUrl_joins_with_one_slash (b e baseUrl endpoint : string) (s s1 : St W) :
  b <> "" ->
  Str.endsWith b "/" = false ->
  Js.startsWith e "/" = false ->
  baseUrl = b \/ baseUrl = b +:+ "/" ->
  endpoint = e \/ endpoint = "/" +:+ e ->
  getBaseUrl host s = (inr baseUrl, s1) ->
  APIClient.getUrl host endpoint s = (inr (b +:+ "/" +:+ e), s1).
Proof.
  intros Hb Hend Hstart Hbase Hendpoint Hrun.
  unfold APIClient.getUrl, bind. rewrite Hrun.
  assert (Hne : String.eqb baseUrl "" = false).
  { apply String.eqb_neq. destruct Hbase as [->| ->]; [assumption|].
    destruct b; discriminate. }
  rewrite Hne.
  assert (Hbase' : (if Str.endsWith baseUrl "/" then Str.slice_init baseUrl else baseUrl)
                   = b).
  { destruct Hbase as [->| ->]; [now rewrite Hend|].
    now rewrite endsWith_slash_app, slice_init_slash_app. }
  assert (Hpath : (if Js.startsWith endpoint "/" then endpoint else "/" +:+ endpoint)
                  = "/" +:+ e).
  { destruct Hendpoint as [->| ->]; [now rewrite Hstart|].
    unfold Js.startsWith. now rewrite prefix_app. }
  rewrite Hbase', Hpath. reflexivity.
Qed.

(** A client method whose URL cannot be resolved throws what [getUrl]
    throws and leaves the state [getUrl] leaves. *)
Lemma client_unresolved {A : Type} (endpoint : string) (k : string -> M W A)
    (s s1 : St W) (e : exn) :
  APIClient.getUrl host endpoint s = (inl e, s1) ->
  (url <- APIClient.getUrl host endpoint ;; k url) s = (inl e, s1).
Proof. intros H. unfold bind. now rewrite H. Qed.

(** X21. While the base URL is not configured (it resolves to the
    empty string), every method of the client throws a ConfigError
    before anything is sent: the transport is not called. *)
Theorem client_needs_base_url (endpoint query : string) (d : value)
    (variables : option (list (string * value)))
    (options : option FetchOptions) (o : FetchOptions) (s s1 : St W) :
  getBaseUrl host s = (inr "", s1) ->
  let failure : exn :=
    ScriptException "ConfigError"
      "Base URL not configured. Check settings[baseUrl].options in config.json" in
  APIClient.get host endpoint options s = (inl failure, s1) /\
  APIClient.post host endpoint d options s = (inl failure, s1) /\
  APIClient.put host endpoint d options s = (inl failure, s1) /\
  APIClient.delete host endpoint options s = (inl failure, s1) /\
  APIClient.getJson host endpoint options s = (inl failure, s1) /\
  APIClient.postJson host endpoint d options s = (inl failure, s1) /\
  APIClient.getHtml host endpoint options s = (inl failure, s1) /\
  APIClient.graphql host query variables (Some endpoint) options s = (inl failure, s1) /\
  APIClient.request host endpoint o s = (inl failure, s1) /\
  http_calls (trace s1) = http_calls (trace s).
Proof.
  intros Hbase failure.
  assert (Hurl : forall e, APIClient.getUrl host e s = (inl failure, s1)).
  { intros e. unfold APIClient.getUrl, bind. now rewrite Hbase. }
  repeat split; try (apply client_unresolved; apply Hurl).
  destruct (getBaseUrl_run host s) as (b & t & Hrun & Hc & _).
  rewrite Hbase in Hrun. injection Hrun as _ ->. simpl.
  now rewrite http_calls_app, Hc, app_nil_r.
Qed.

End ClientClaims.

(** * Properties of the authentication state *)

Section AuthClaims.
Context {W : Type} (host : Host W).

(** X22. [refreshAuthToken] sends exactly one POST of [{}] to the base
    URL followed by [/auth/token], with no retry, and it updates the
    authentication state all at once or not at all. The state is left
    as it was when the transport throws, when the status is not OK,
    when the body does not parse and when it parses to [null]. In
    every other case, also when the body parses to a value that is not
    an object (a number, say, whose fields are all [undefined]), the
    token is [accessToken], else [token], else the empty string, the
    user id is [userId], else [user_id], else the empty string, and
    the expiration is 24 hours after the current time. *)
Theorem refreshAuthToken_all_or_nothing (now : Z) (a : AuthState) (s : St W) :
  exists baseUrl t,
    fst (getBaseUrl host s) = inr baseUrl /\
    trace (snd (Auth.refreshAuthToken host now a s)) = trace s ++ t /\
    http_calls t = [token_call baseUrl] /\
    fst (Auth.refreshAuthToken host now a s) =
      match refresh_payload host (fst (http host (token_call baseUrl) (world s))) with
      | None => a
      | Some payload =>
          mkAuthState
            (js_or (js_or (field_of payload "accessToken") (field_of payload "token"))
               (VStr ""))
            (now + 86400000)
            (js_or (js_or (field_of payload "userId") (field_of payload "user_id"))
               (VStr ""))
      end.
Proof.
  destruct (getBaseUrl_run host s) as (baseUrl & t0 & Hbase & Hc0 & _).
  exists baseUrl.
  unfold Auth.refreshAuthToken, Auth.refresh_try. rewrite Hbase.
  change (Json.stringify_str (VObj [])) with "{}". fold (token_call baseUrl).
  unfold http_do, refresh_payload. simpl world. simpl trace.
  destruct (http host (token_call baseUrl) (world s)) as [[e|response] w'] eqn:Hhttp.
  { eexists. simpl. rewrite <- !app_assoc. split; [reflexivity|]. split; [reflexivity|].
    split; [|reflexivity]. rewrite !http_calls_app, Hc0. reflexivity. }
  cbn [fst].
  destruct (isOk response) eqn:Hok; simpl.
  2:{ eexists. rewrite <- !app_assoc. split; [reflexivity|]. split; [reflexivity|].
      split; [|reflexivity]. rewrite !http_calls_app, Hc0. reflexivity. }
  destruct (JSON_parse host (body response)) as [e|payload] eqn:Hparse.
  { eexists. simpl. rewrite <- !app_assoc. split; [reflexivity|]. split; [reflexivity|].
    split; [|reflexivity]. rewrite !http_calls_app, Hc0. reflexivity. }
  destruct (Js.get_prop payload "accessToken") as [e|accessToken] eqn:Ha.
  { eexists. simpl. rewrite <- !app_assoc. split; [reflexivity|]. split; [reflexivity|].
    split; [rewrite !http_calls_app, Hc0; reflexivity|].
    destruct payload; try discriminate; reflexivity. }
  destruct (get_prop_defined payload accessToken "accessToken" "token" Ha) as [token Ht].
  destruct (get_prop_defined payload accessToken "accessToken" "userId" Ha) as [uid Hu].
  destruct (get_prop_defined payload accessToken "accessToken" "user_id" Ha) as [user Hv].
  rewrite Ht, Hu, Hv.
  eexists. split; [reflexivity|].
  assert (Htoken : (if Js.truthy accessToken then inr accessToken else inr token)
                   = (inr (js_or accessToken token) : exn + value)).
  { unfold js_or. now destruct (Js.truthy accessToken). }
  assert (Huser : (if Js.truthy uid then inr uid else inr user)
                  = (inr (js_or uid user) : exn + value)).
  { unfold js_or. now destruct (Js.truthy uid). }
  rewrite Htoken, Huser. simpl.
  rewrite <- !app_assoc. split; [reflexivity|].
  split; [rewrite !http_calls_app, Hc0; reflexivity|].
  unfold field_of.
  destruct payload; try discriminate; rewrite ?Ha, ?Ht, ?Hu, ?Hv; reflexivity.
Qed.

(** X23. After a refresh that got an OK response with a truthy
    [accessToken], the token is that [accessToken] and [isTokenValid]
    answers [true] at every time before the 24 hours have passed and
    [false] from then on. *)
Theorem refreshed_token_valid_for_a_day (now : Z) (a : AuthState) (s : St W)
    (response : Response) (payload accessToken : value) :
  (forall c, fst (http host c (world s)) = inr response) ->
  isOk response = true ->
  JSON_parse host (body response) = inr payload ->
  Js.get_prop payload "accessToken" = inr accessToken ->
  Js.truthy accessToken = true ->
  let a' := fst (Auth.refreshAuthToken host now a s) in
  authToken a' = accessToken /\
  forall later, Auth.isTokenValid later a' = VBool (later <? now + 86400000).
Proof.
  intros Hresp Hok Hparse Ha Htruthy.
  destruct (getBaseUrl_run host s) as (baseUrl & t0 & Hbase & _).
  destruct (get_prop_defined payload accessToken "accessToken" "userId" Ha) as [uid Hu].
  destruct (get_prop_defined payload accessToken "accessToken" "user_id" Ha) as [user Hv].
  assert (Hrun : fst (Auth.refreshAuthToken host now a s)
                 = mkAuthState accessToken (now + 86400000)
                     (js_or (js_or uid user) (VStr ""))).
  { unfold Auth.refreshAuthToken, Auth.refresh_try. rewrite Hbase.
    unfold http_do. simpl world.
    match goal with
    | |- context [http host ?c (world s)] =>
        specialize (Hresp c); destruct (http host c (world s)) as [o w']
    end.
    simpl in Hresp. subst o. rewrite Hok. simpl.
    rewrite Hparse, Ha, Htruthy, Hu, Hv.
    unfold js_or. rewrite Htruthy.
    destruct (Js.truthy uid); reflexivity. }
  intros a'. subst a'. rewrite Hrun. split; [reflexivity|].
  intros later. unfold Auth.isTokenValid. simpl. now rewrite Htruthy.
Qed.

End AuthClaims.

(** X24. [isTokenValid] is truthy exactly when the stored token is
    truthy and the current time is before the expiration; after
    [clearAuthState] it is falsy at every time, whatever the state
    was. *)
Theorem token_valid_iff (now : Z) (a : AuthState) :
  Js.truthy (Auth.isTokenValid now a)
    = Js.truthy (authToken a) && (now <? authTokenExpiration a) /\
  Js.truthy (Auth.isTokenValid now (Auth.clearAuthState a)) = false.
Proof.
  split; [|reflexivity].
  unfold Auth.isTokenValid.
  destruct (Js.truthy (authToken a)) eqn:Ht; simpl; [reflexivity|exact Ht].
Qed.

(** * Properties of the search pager *)

(** X25. A search pager has more pages only until [nextPage] is called
    once: a new pager answers [hasMore] with [true], and after any
    number of calls of [nextPage], one or more, it answers [false],
    every page it gave is empty and its page counter has advanced by
    the number of calls. *)
Theorem pager_ends_after_first_page (query type : string) (n : nat) (p : SearchPager) :
  Pager.hasMore (Pager.create query type) = true /\
  Pager.hasMore (snd (Pager.nextPages (S n) p)) = false /\
  pager_page (snd (Pager.nextPages (S n) p)) = pager_page p + Z.of_nat (S n) /\
  fst (Pager.nextPages (S n) p) = replicate (S n) [].
Proof.
  split; [reflexivity|].
  revert p. induction n as [|n IH]; intros p.
  - simpl. repeat split; lia.
  - destruct (IH (snd (fst (Pager.nextPage p)))) as (Hmore & Hpage & Hpages).
    change (Pager.nextPages (S (S n)) p)
      with (let '(pages, p2) := Pager.nextPages (S n) (snd (fst (Pager.nextPage p))) in
            (@nil value :: pages, p2)).
    destruct (Pager.nextPages (S n) (snd (fst (Pager.nextPage p)))) as [pages p2].
    simpl in *. repeat split; [assumption|lia|now rewrite Hpages].
Qed.

(** * Properties of the command-line arguments *)

Lemma string_app_assoc (a b c : string) : (a +:+ b) +:+ c = a +:+ b +:+ c.
Proof.
  induction a as [|x a IH]; [reflexivity|].
  change (String x a +:+ b) with (String x (a +:+ b)).
  change (String x (a +:+ b) +:+ c) with (String x ((a +:+ b) +:+ c)).
  now rewrite IH.
Qed.

Lemma split_nonempty (sep : ascii) (s : string) : Str.split sep s <> [].
Proof.
  induction s as [|c s IH]; simpl; [discriminate|].
  destruct (Ascii.eqb c sep); [discriminate|].
  destruct (Str.split sep s); [contradiction|discriminate].
Qed.

Lemma split_no_separator (sep : ascii) (s : string) :
  has_char sep s = false -> Str.split sep s = [s].
Proof.
  induction s as [|c s IH]; simpl; [reflexivity|].
  intros [Hc Hs]%orb_false_elim. rewrite Hc, (IH Hs). reflexivity.
Qed.

Lemma split_at_separator (sep : ascii) (p v : string) :
  has_char sep p = false ->
  Str.split sep (p +:+ String sep v) = p :: Str.split sep v.
Proof.
  induction p as [|c p IH]; intros Hp.
  - change ("" +:+ String sep v) with (String sep v). simpl.
    now rewrite Ascii.eqb_refl.
  - change (String c p +:+ String sep v) with (String c (p +:+ String sep v)).
    simpl in *. apply orb_false_elim in Hp as [Hc Hp].
    rewrite Hc, (IH Hp). reflexivity.
Qed.

Lemma find_after_misses {A : Type} (f : A -> bool) (before : list A) (x : A)
    (after : list A) :
  Forall (fun y => f y = false) before ->
  f x = true ->
  List.find f (before ++ x :: after) = Some x.
Proof.
  intros Hb Hx. induction Hb as [|y before Hy _ IH]; simpl.
  - now rewrite Hx.
  - now rewrite Hy.
Qed.

Lemma find_all_miss {A : Type} (f : A -> bool) (l : list A) :
  Forall (fun y => f y = false) l -> List.find f l = None.
Proof.
  intros Hl. induction Hl as [|y l Hy _ IH]; simpl; [reflexivity|now rewrite Hy].
Qed.

(** [indexOf]: the first position of [target]. *)
Lemma find_index (target : string) (before after : list string) (k : nat) :
  Forall (fun y => y <> target) before ->
  List.find (fun ia => String.eqb (snd ia) target)
            (combine (seq k (length (before ++ target :: after)))
                     (before ++ target :: after))
    = Some ((k + length before)%nat, target).
Proof.
  intros Hb. revert k. induction Hb as [|y before Hy _ IH]; intros k; simpl.
  - rewrite String.eqb_refl. f_equal. f_equal. lia.
  - apply String.eqb_neq in Hy. rewrite Hy, IH. f_equal. f_equal. lia.
Qed.

(** X26. An argument [--name=value] wins over every other spelling, and
    its value is cut at the next equals sign: when the first argument
    that starts with [--name=] is [--name=v] (the name has no equals
    sign), [getArgValue] answers the part of [v] before its first
    equals sign, so [v] itself when it has none. *)
Theorem getArgValue_equal_form (name v : string) (before after : list string)
    (defaultValue : option string) :
  has_char "="%char name = false ->
  Forall (fun arg => Js.startsWith arg ("--" +:+ name +:+ "=") = false) before ->
  let args := before ++ ("--" +:+ name +:+ "=" +:+ v) :: after in
  Cli.getArgValue args name defaultValue = Some (hd "" (Str.split "="%char v)) /\
  (has_char "="%char v = false -> Cli.getArgValue args name defaultValue = Some v).
Proof.
  intros Hname Hbefore args.
  assert (Hrun : Cli.getArgValue args name defaultValue
                 = Some (hd "" (Str.split "="%char v))).
  { unfold Cli.getArgValue. subst args.
    rewrite (find_after_misses _ before ("--" +:+ name +:+ "=" +:+ v) after Hbefore).
    2:{ unfold Js.startsWith.
        replace ("--" +:+ name +:+ "=" +:+ v) with (("--" +:+ name +:+ "=") +:+ v).
        - apply prefix_app.
        - now rewrite !string_app_assoc. }
    change ("--" +:+ name +:+ "=" +:+ v)
      with (String "-" (String "-" (name +:+ String "=" v))).
    simpl. rewrite (split_at_separator "=" name v Hname). simpl.
    pose proof (split_nonempty "=" v). now destruct (Str.split "=" v). }
  split; [exact Hrun|].
  intros Hv. rewrite Hrun, (split_no_separator "=" v Hv). reflexivity.
Qed.

(** X27. With no argument that starts with [--name=], the value of the
    first argument [--name] is the argument that follows it, whatever
    that is, and the default when nothing follows; without any
    [--name] the answer is the default as well. *)
Theorem getArgValue_space_form (name : string) (before rest : list string)
    (defaultValue : option string) :
  Forall (fun arg => Js.startsWith arg ("--" +:+ name +:+ "=") = false)
         (before ++ ("--" +:+ name) :: rest) ->
  Forall (fun arg => arg <> "--" +:+ name) before ->
  Cli.getArgValue (before ++ ("--" +:+ name) :: rest) name defaultValue
    = match rest with
      | v :: _ => Some v
      | [] => defaultValue
      end /\
  Cli.getArgValue before name defaultValue = defaultValue.
Proof.
  intros Hequal Hbefore. split.
  - unfold Cli.getArgValue.
    rewrite (find_all_miss _ _ Hequal), (find_index _ before rest 0 Hbefore).
    simpl. replace (length before + 1)%nat with (length before + 1 + 0)%nat by lia.
    rewrite <- Nat.add_assoc.
    rewrite nth_error_app2 by lia.
    replace (length before + (1 + 0) - length before)%nat with 1%nat by lia.
    simpl. now destruct rest.
  - unfold Cli.getArgValue.
    apply Forall_app in Hequal as [Hequal _].
    rewrite (find_all_miss _ _ Hequal).
    assert (Hnone : forall k,
              List.find (fun ia : nat * string => String.eqb (snd ia) ("--" +:+ name))
                        (combine (seq k (length before)) before) = None).
    { clear Hequal. induction Hbefore as [|y before Hy _ IH]; intros k; simpl;
        [reflexivity|].
      apply String.eqb_neq in Hy. now rewrite Hy, IH. }
    now rewrite Hnone.
Qed.

(** * Properties of the persisted-query URL *)









(** * The further properties on concrete inputs *)

Lemma quiet_requests_return_witness :
  is_inr (fst (_fetch Runs.host "https://x.test/a" Runs.quiet (Stub.start []))) = true.
Proof.
  apply (quiet_requests_return Runs.host "https://x.test/a" VNull Runs.quiet
           (Stub.start []) eq_refl).
Defined.

Lemma fetch_without_attempts_witness :
  _fetch Runs.host "https://x.test/a" Cases.no_attempts (Stub.start [])
    = (inl (ScriptException "NetworkError"
              "Request to https://x.test/a failed after 0 attempts: Unknown error"),
       Stub.start []).
Proof.
  apply (fetch_without_attempts Runs.host "https://x.test/a" Cases.no_attempts
           (Stub.start [])).
  simpl. lia.
Defined.

Lemma method_case_insensitive_witness :
  _fetch Runs.agent_host "https://x.test/a" (with_method "get" no_options) (Stub.start [])
    = _fetch Runs.agent_host "https://x.test/a" (with_method "GET" no_options)
        (Stub.start []).
Proof. apply method_case_insensitive. reflexivity. Defined.

Lemma fetch_raw_response_witness :
  _fetch Runs.agent_host "https://x.test/a" no_options (Stub.start [])
    = (inr (response_value (mkResponse true 200 Runs.json_text)),
       mkSt [] [EvHttp (HttpGET "https://x.test/a" {[ "User-Agent" := "D" ]} false)]).
Proof.
  apply (fetch_raw_response Runs.agent_host "https://x.test/a" no_options (Stub.start [])
           (mkResponse true 200 Runs.json_text)); try reflexivity.
  simpl. lia.
Defined.

Lemma fetch_html_document_witness :
  fst (_fetch Runs.agent_host "https://x.test/a" Cases.html (Stub.start []))
    = inr (VHost 0).
Proof.
  rewrite (fetch_html_document Runs.agent_host "https://x.test/a" Cases.html
             (Stub.start []) (mkResponse true 200 Runs.json_text) (VHost 0));
    try reflexivity.
  simpl. lia.
Defined.

Lemma fetch_reports_api_errors_witness :
  exists t,
    trace (snd (_fetch Runs.errors_host "https://x.test/a" Cases.one_retry_json
                  (mkSt tt []))) = [] ++ t /\
    count_http t = 2%nat.
Proof.
  destruct (fetch_reports_api_errors Runs.errors_host 1 "https://x.test/a"
              Cases.one_retry_json (mkSt tt []) eq_refl eq_refl eq_refl)
    as (t & _ & _ & _ & _ & _ & _ & _ & Ht & Hcount).
  - intros i _.
    exists (mkResponse true 200 Runs.errors_text), Runs.errors_payload,
      (VArr [VObj [("message", VStr "A")]; VObj [("message", VStr "B")]]).
    repeat split; reflexivity.
  - exists t. split; assumption.
Defined.

Lemma fetchGraphQL_unwraps_data_witness :
  fst (fetchGraphQL Cases.data_host "https://x.test/graphql" "{x}" [] no_options
         (mkSt tt []))
    = inr (VObj [("x", VNum 1)]).
Proof.
  apply (fetchGraphQL_unwraps_data Cases.data_host "https://x.test/graphql" "{x}" []
           no_options (mkSt tt []) (mkResponse true 200 Cases.data_text)
           Cases.data_payload VUndefined (VObj [("x", VNum 1)]));
    try reflexivity.
  simpl. lia.
Defined.

Lemma executeQuery_posts_witness :
  exists baseUrl t,
    fst (getBaseUrl Cases.data_host (mkSt tt [])) = inr baseUrl /\
    trace (snd (executeQuery Cases.data_host Cases.viewer (mkSt tt []))) = [] ++ t /\
    http_calls t = replicate (count_http t) (graphql_call Cases.data_host Cases.viewer baseUrl) /\
    Z.of_nat (count_http t) <= Z.max 0 (3 + 1).
Proof.
  apply (executeQuery_posts Cases.data_host Cases.viewer (mkSt tt [])). reflexivity.
Defined.

Lemma executeQuery_success_witness :
  fst (executeQuery Cases.data_host Cases.viewer (mkSt tt []))
    = inr (None, VObj [("x", VNum 1)]).
Proof.
  apply (executeQuery_success Cases.data_host Cases.viewer (mkSt tt [])
           (mkResponse true 200 Cases.data_text) Cases.data_payload VUndefined
           (VObj [("x", VNum 1)]));
    try reflexivity.
  simpl. lia.
Defined.

Lemma executePersistedQuery_success_witness :
  fst (executePersistedQuery Cases.data_host Runs.feed (mkSt tt []))
    = inr (None, VObj [("x", VNum 1)]).
Proof.
  apply (executePersistedQuery_success Cases.data_host Runs.feed (mkSt tt [])
           (mkResponse true 200 Cases.data_text) Cases.data_payload VUndefined
           (VObj [("x", VNum 1)]));
    try reflexivity.
  simpl. lia.
Defined.

Lemma executePersistedQuery_gets_witness :
  exists baseUrl t,
    fst (getBaseUrl Cases.data_host (mkSt tt [])) = inr baseUrl /\
    trace (snd (executePersistedQuery Cases.data_host Runs.feed (mkSt tt []))) = [] ++ t /\
    http_calls t = replicate (count_http t) (persisted_call Cases.data_host Runs.feed baseUrl) /\
    Z.of_nat (count_http t) <= Z.max 0 (3 + 1).
Proof.
  apply (executePersistedQuery_gets Cases.data_host Runs.feed (mkSt tt []));
    reflexivity.
Defined.

Lemma getBaseUrl_selection_witness :
  getBaseUrl Cases.mirror_host (mkSt tt []) = (inr "https://mirror.test", mkSt tt []).
Proof.
  apply (getBaseUrl_selection Cases.mirror_host Cases.config Cases.setting
           "https://x.test" [] (mkSt tt [])); reflexivity.
Defined.

Lemma getBaseUrl_unconfigured_witness :
  exists warning,
    getBaseUrl Cases.bare_host (mkSt tt []) = (inr "", mkSt tt ([] ++ [EvLog warning])).
Proof.
  apply (getBaseUrl_unconfigured Cases.bare_host (mkSt tt [])). now left.
Defined.

Lemma getUrl_joins_with_one_slash_witness :
  APIClient.getUrl Cases.slash_host "/videos" (mkSt tt [])
    = (inr "https://x.test/videos", mkSt tt []).
Proof.
  apply (getUrl_joins_with_one_slash Cases.slash_host "https://x.test" "videos"
           "https://x.test/" "/videos" (mkSt tt []) (mkSt tt []));
    try reflexivity; try discriminate; now right.
Defined.

Lemma client_needs_base_url_witness :
  APIClient.get Cases.bare_host "/videos" None (mkSt tt [])
    = (inl (ScriptException "ConfigError"
              "Base URL not configured. Check settings[baseUrl].options in config.json"),
       mkSt tt [EvLog "Warning: getBaseUrl() called before plugin.enable()"]).
Proof.
  apply (client_needs_base_url Cases.bare_host "/videos" "{x}" VNull None None no_options
           (mkSt tt [])
           (mkSt tt [EvLog "Warning: getBaseUrl() called before plugin.enable()"])).
  reflexivity.
Defined.

Lemma refreshAuthToken_all_or_nothing_witness :
  fst (Auth.refreshAuthToken Cases.number_host 1000 Cases.signed_out (mkSt tt []))
    = mkAuthState (VStr "") 86401000 (VStr "").
Proof.
  destruct (refreshAuthToken_all_or_nothing Cases.number_host 1000 Cases.signed_out
              (mkSt tt [])) as (baseUrl & t & Hbase & _ & _ & Hstate).
  injection Hbase as <-.
  exact Hstate.
Defined.

Lemma refreshed_token_valid_for_a_day_witness :
  Auth.isTokenValid 1000
    (fst (Auth.refreshAuthToken Cases.token_host 0 Cases.signed_out (mkSt tt [])))
    = VBool true.
Proof.
  apply (refreshed_token_valid_for_a_day Cases.token_host 0 Cases.signed_out (mkSt tt [])
           (mkResponse true 200 Cases.token_text) Cases.token_payload (VStr "t0k"));
    reflexivity.
Defined.

Lemma getArgValue_equal_form_witness :
  Cli.getArgValue
    ["node"; "test.js"; "--dev-ip"; "10.0.0.1"; "--dev-ip=192.168.1.100"] "dev-ip" None
    = Some "192.168.1.100".
Proof.
  apply (getArgValue_equal_form "dev-ip" "192.168.1.100"
           ["node"; "test.js"; "--dev-ip"; "10.0.0.1"] [] None).
  - reflexivity.
  - repeat constructor.
  - reflexivity.
Defined.

Lemma getArgValue_space_form_witness :
  Cli.getArgValue ["node"; "test.js"; "--port"; "3000"] "port" None = Some "3000".
Proof.
  apply (getArgValue_space_form "port" ["node"; "test.js"] ["3000"] None).
  - repeat constructor.
  - repeat constructor; discriminate.
Defined.
